(** * Acquisition pipeline of the BHA racing scraper

    A shallow embedding of [scraper/step1_fixtures.py]: the daily date
    generator, the file cache, the token capture handler and the fetch
    entry point, with the properties the specification states about them. *)

From Stdlib Require Import ZArith Lia String Ascii List Bool.
From Stdlib Require DecimalFacts DecimalPos DecimalString.
From stdpp Require Import base option gmap strings list.

#[local] Set Warnings "-register-all".

Local Open Scope string_scope.
Local Open Scope Z_scope.

(** ** Exceptions and results *)

(** The exceptions the module can raise, by Python class.  A [ValueError]
    carries its message: the generator raises the same class for a
    malformed and for an inverted range and only the text tells them apart.
    [OSError] is the class itself, with its [errno]; the three classes
    before it are subclasses of it.  [UnicodeDecodeError] and
    [JSONDecodeError] are subclasses of [ValueError] with a class of their
    own. *)
Inductive exn : Type :=
  | ValueError (msg : string)
  | OverflowError
  | FileNotFoundError
  | NotADirectoryError
  | IsADirectoryError
  | OSError (errno : Z)
  | UnicodeDecodeError
  | JSONDecodeError
  | PlainException (msg : string).

(** [errno.ENAMETOOLONG] *)
Definition ENAMETOOLONG : Z := 36.

Inductive res (A : Type) : Type :=
  | Ok (a : A)
  | Raise (e : exn).
Arguments Ok {A} a.
Arguments Raise {A} e.

(** ** The proleptic Gregorian calendar of [datetime] *)

Module Calendar.

Record date : Type := Date { year : Z; month : Z; day : Z }.

Definition MINYEAR : Z := 1.
Definition MAXYEAR : Z := 9999.

(** [_is_leap]: year % 4 == 0 and (year % 100 != 0 or year % 400 == 0) *)
Definition is_leap (y : Z) : bool :=
  (y mod 4 =? 0) && (negb (y mod 100 =? 0) || (y mod 400 =? 0)).

(** [_DAYS_IN_MONTH], indexed from 1. *)
Definition month_length (m : Z) : Z :=
  match m with
  | 1 => 31 | 2 => 28 | 3 => 31 | 4 => 30 | 5 => 31 | 6 => 30
  | 7 => 31 | 8 => 31 | 9 => 30 | 10 => 31 | 11 => 30 | 12 => 31
  | _ => -1
  end.

(** [_days_in_month] *)
Definition days_in_month (y m : Z) : Z :=
  if (m =? 2) && is_leap y then 29 else month_length m.

(** [_DAYS_BEFORE_MONTH]: days of a common year before the first of month [m]. *)
Definition month_offset (m : Z) : Z :=
  match m with
  | 1 => 0 | 2 => 31 | 3 => 59 | 4 => 90 | 5 => 120 | 6 => 151
  | 7 => 181 | 8 => 212 | 9 => 243 | 10 => 273 | 11 => 304 | 12 => 334
  | _ => -1
  end.

(** [_days_before_year] *)
Definition days_before_year (y : Z) : Z :=
  let p := y - 1 in p * 365 + p / 4 - p / 100 + p / 400.

(** [_days_before_month] *)
Definition days_before_month (y m : Z) : Z :=
  month_offset m + (if (2 <? m) && is_leap y then 1 else 0).

(** [date.toordinal]: 0001-01-01 is day 1. *)
Definition toordinal (d : date) : Z :=
  days_before_year (year d) + days_before_month (year d) (month d) + day d.

(** The check the [date] constructor performs on its fields. *)
Definition valid_date (d : date) : bool :=
  (MINYEAR <=? year d) && (year d <=? MAXYEAR)
  && (1 <=? month d) && (month d <=? 12)
  && (1 <=? day d) && (day d <=? days_in_month (year d) (month d)).

Definition date_max : date := Date 9999 12 31.

(** Dates compare as the tuples (year, month, day). *)
Definition date_ltb (a b : date) : bool :=
  (year a <? year b)
  || ((year a =? year b)
      && ((month a <? month b)
          || ((month a =? month b) && (day a <? day b)))).

Definition date_eqb (a b : date) : bool :=
  (year a =? year b) && (month a =? month b) && (day a =? day b).

Definition date_leb (a b : date) : bool := date_ltb a b || date_eqb a b.

(** Adding [timedelta(days=1)]: the day field is incremented and the date
    renormalised, carrying into the month and the year; a year beyond
    [MAXYEAR] is the library's [OverflowError], here [None]. *)
Definition date_succ (d : date) : option date :=
  if day d <? days_in_month (year d) (month d)
  then Some (Date (year d) (month d) (day d + 1))
  else if month d <? 12
  then Some (Date (year d) (month d + 1) 1)
  else if year d <? MAXYEAR
  then Some (Date (year d + 1) 1 1)
  else None.

(** A naive [datetime]: a date and the time of day in microseconds.  Values
    with a UTC offset, which compare by instant and do not compare with
    naive ones, are outside the model. *)
Record datetime : Type := DateTime { dt_date : date; dt_time : Z }.

Definition midnight (d : date) : datetime := DateTime d 0.

Definition datetime_ltb (a b : datetime) : bool :=
  date_ltb (dt_date a) (dt_date b)
  || (date_eqb (dt_date a) (dt_date b) && (dt_time a <? dt_time b)).

Definition datetime_leb (a b : datetime) : bool :=
  date_ltb (dt_date a) (dt_date b)
  || (date_eqb (dt_date a) (dt_date b) && (dt_time a <=? dt_time b)).

(** [dt + timedelta(days=1)] keeps the time of day. *)
Definition add_one_day (dt : datetime) : option datetime :=
  match date_succ (dt_date dt) with
  | Some d => Some (DateTime d (dt_time dt))
  | None => None
  end.

(** Decimal digits. *)
Definition digit_char (n : Z) : ascii := ascii_of_N (Z.to_N (48 + n)).

Definition digit_val (c : ascii) : option Z :=
  let n := Z.of_N (N_of_ascii c) in
  if (48 <=? n) && (n <=? 57) then Some (n - 48) else None.

Definition pad2 (n : Z) : string :=
  String (digit_char (n / 10)) (String (digit_char (n mod 10)) EmptyString).

Definition pad4 (n : Z) : string :=
  String (digit_char (n / 1000))
    (String (digit_char (n / 100 mod 10)) (pad2 (n mod 100))).

(** [date.isoformat]: YYYY-MM-DD, the year in four digits. *)
Definition isoformat (d : date) : string :=
  pad4 (year d) ++ "-" ++ pad2 (month d) ++ "-" ++ pad2 (day d).

(** The year as [%Y] prints it.  CPython hands the format to the C library,
    and the GNU C library prints the year as a plain decimal number: a year
    below 1000 comes without leading zeros. *)
Definition year_text (y : Z) : string :=
  if y <? 10 then String (digit_char y) EmptyString
  else if y <? 100 then pad2 y
  else if y <? 1000 then String (digit_char (y / 100)) (pad2 (y mod 100))
  else pad4 y.

(** [strftime("%Y-%m-%d")] of a date: 0999-12-31 gives 999-12-31. *)
Definition strftime_date (d : date) : string :=
  year_text (year d) ++ "-" ++ pad2 (month d) ++ "-" ++ pad2 (day d).

(** [dt.strftime("%Y-%m-%d")]: the time of day does not show. *)
Definition strftime_ymd (dt : datetime) : string := strftime_date (dt_date dt).

End Calendar.
Export Calendar.

(** ** [datetime.fromisoformat] *)

(** The parser belongs to the standard library, and the set of strings it
    accepts has grown from release to release.  The generator is therefore
    modelled over any parser of texts without UTC offset; [None] stands for
    the parser's [ValueError]. *)
Class IsoParser : Type := { fromisoformat : string -> option datetime }.

(** What every release guarantees: a valid date in the form YYYY-MM-DD
    parses to that date at midnight. *)
Definition parses_dates (P : IsoParser) : Prop :=
  forall d, valid_date d = true -> fromisoformat (isoformat d) = Some (midnight d).

Module IsoText.

Definition two_digits (a b : ascii) : option Z :=
  match digit_val a, digit_val b with
  | Some x, Some y => Some (10 * x + y)
  | _, _ => None
  end.

Definition four_digits (a b c d : ascii) : option Z :=
  match two_digits a b, two_digits c d with
  | Some x, Some y => Some (100 * x + y)
  | _, _ => None
  end.

(** The date part: exactly YYYY-MM-DD, checked as the [date] constructor
    checks it.  Returns the date and the rest of the string. *)
Definition parse_date (s : string) : option (date * string) :=
  match s with
  | String y1 (String y2 (String y3 (String y4 (String "-"
      (String m1 (String m2 (String "-" (String d1 (String d2 rest))))))))) =>
      match four_digits y1 y2 y3 y4, two_digits m1 m2, two_digits d1 d2 with
      | Some y, Some m, Some d =>
          if valid_date (Date y m d) then Some (Date y m d, rest) else None
      | _, _, _ => None
      end
  | _ => None
  end.

Definition micros (h m s : Z) : Z := ((h * 60 + m) * 60 + s) * 1000000.

(** The time part: HH, HH:MM or HH:MM:SS. *)
Definition parse_time (s : string) : option Z :=
  match s with
  | String h1 (String h2 rest) =>
      match two_digits h1 h2 with
      | Some h =>
          if h <? 24 then
            match rest with
            | EmptyString => Some (micros h 0 0)
            | String ":" (String m1 (String m2 rest')) =>
                match two_digits m1 m2 with
                | Some m =>
                    if m <? 60 then
                      match rest' with
                      | EmptyString => Some (micros h m 0)
                      | String ":" (String s1 (String s2 EmptyString)) =>
                          match two_digits s1 s2 with
                          | Some sec =>
                              if sec <? 60 then Some (micros h m sec) else None
                          | None => None
                          end
                      | _ => None
                      end
                    else None
                | None => None
                end
            | _ => None
            end
          else None
      | None => None
      end
  | _ => None
  end.

(** YYYY-MM-DD, optionally followed by one separator character and a time.
    These are the forms accepted since the function exists; fractions of
    a second, UTC offsets and the basic and week forms of later releases
    are outside this parser, which answers [None] for them. *)
Definition parse (s : string) : option datetime :=
  match parse_date s with
  | Some (d, EmptyString) => Some (midnight d)
  | Some (d, String _ t) =>
      match parse_time t with
      | Some us => Some (DateTime d us)
      | None => None
      end
  | None => None
  end.

End IsoText.

#[export] Instance iso_text : IsoParser := {| fromisoformat := IsoText.parse |}.

(** ** The generator [_generate_daily_date_strings] *)

Module DateRange.
Section Generator.
Context {P : IsoParser}.

Definition invalid_format_message (start_date_string end_date_string : string) : string :=
  "Invalid date format. Expected 'YYYY-MM-DD', got start='"
    ++ start_date_string ++ "', end='" ++ end_date_string ++ "'".

Definition inverted_message (start_date_string end_date_string : string) : string :=
  "Start date " ++ start_date_string ++ " is after end date " ++ end_date_string.

(** A generator object.  Calling the function runs none of its body: the
    object is [Created] with the two arguments.  After a [yield] it is
    [Suspended] inside the loop with [current_date] and [range_end]. *)
Inductive generator : Type :=
  | Created (start_date_string end_date_string : string)
  | Suspended (current_date range_end : datetime)
  | Closed.

Inductive resumed : Type :=
  | Yield (formatted_date_string : string)
  | StopIteration
  | Raised (e : exn).

Definition _generate_daily_date_strings
    (start_date_string end_date_string : string) : generator :=
  Created start_date_string end_date_string.

(** The test of the [while] loop and, when it holds, the [yield]. *)
Definition loop (current_date range_end : datetime) : resumed * generator :=
  if datetime_leb current_date range_end
  then (Yield (strftime_ymd current_date), Suspended current_date range_end)
  else (StopIteration, Closed).

(** [next(g)]: run the body up to the next [yield], the end or an error. *)
Definition next (g : generator) : resumed * generator :=
  match g with
  | Created start_date_string end_date_string =>
      match fromisoformat start_date_string with
      | None =>
          (Raised (ValueError
                     (invalid_format_message start_date_string end_date_string)),
           Closed)
      | Some range_start =>
          match fromisoformat end_date_string with
          | None =>
              (Raised (ValueError
                         (invalid_format_message start_date_string end_date_string)),
               Closed)
          | Some range_end =>
              if datetime_ltb range_end range_start
              then (Raised (ValueError
                              (inverted_message start_date_string end_date_string)),
                    Closed)
              else loop range_start range_end
          end
      end
  | Suspended current_date range_end =>
      match add_one_day current_date with
      | None => (Raised OverflowError, Closed)
      | Some current_date' => loop current_date' range_end
      end
  | Closed => (StopIteration, Closed)
  end.

(** How a consumer's iteration over the generator ended. *)
Inductive ending : Type :=
  | Exhausted
  | Failed (e : exn)
  | Unfinished.

(** The consumer: call [next] until the generator stops, at most [fuel]
    times, collecting what it yields. *)
Fixpoint drain (fuel : nat) (g : generator) : list string * ending :=
  match fuel with
  | O => ([], Unfinished)
  | S fuel' =>
      match next g with
      | (Yield s, g') =>
          let (ys, e) := drain fuel' g' in (s :: ys, e)
      | (StopIteration, _) => ([], Exhausted)
      | (Raised e, _) => ([], Failed e)
      end
  end.

End Generator.
End DateRange.
Export DateRange.

(** The days from [d] on: [d] and its [n] successors, as far as the calendar
    goes. *)
Fixpoint days_from (d : date) (n : nat) : list date :=
  match n with
  | O => [d]
  | S n' =>
      match date_succ d with
      | Some d' => d :: days_from d' n'
      | None => [d]
      end
  end.

(** ** [json.dump] and [json.load] *)

(** The codec belongs to the standard library.  The cache is modelled over
    any codec: [dumps] is what [json.dump] writes to the file, [loads] the
    value [json.load] builds from the content of a file, and [json_value]
    tells the documents JSON can represent (string keys, no cycles, JSON
    scalars).  [json.load] first reads the file, which decodes its bytes
    as text in the encoding [open] chose, and then parses the text: [None]
    stands for the failure of either step, and [decodes_as_text] tells which
    one, a [UnicodeDecodeError] for a content that is no text and a
    [JSONDecodeError] for a text that is no JSON. *)
Class JsonCodec (Doc : Type) : Type := {
  dumps : Doc -> string;
  loads : string -> option Doc;
  decodes_as_text : string -> bool;
  json_value : Doc -> Prop;
}.

(** What the library guarantees: decoding an encoded JSON value gives the
    value back. *)
Definition decodes_encoded {Doc : Type} (C : JsonCodec Doc) : Prop :=
  forall d : Doc, json_value d -> loads (dumps d) = Some d.

(** A codec for JSON documents over integers, strings, booleans, null,
    lists and dictionaries, with the encoder's default options
    (separators [", "] and [": "], [ensure_ascii]) and the decoder's strict
    mode.  The characters of a document are the code points 0 to 255; the
    content of a file is a sequence of bytes, and this codec reads ASCII,
    which is all the encoder writes: a content with a byte above 127 is not
    text for it, as it is not for [open] in an ASCII locale nor, for bytes
    such as 255 that occur in no UTF-8 sequence, in a UTF-8 one.  Numbers
    with a fraction or an exponent are outside this codec, which answers
    [None] for them. *)
Module Json.

Inductive json : Type :=
  | JNull
  | JBool (b : bool)
  | JInt (z : Z)
  | JStr (s : string)
  | JList (items : list json)
  | JDict (members : list (string * json)).

Definition dquote : ascii := "034".
Definition backslash : ascii := "092".

(** *** Encoder *)

Definition hex_char (n : N) : ascii :=
  if (n <? 10)%N then ascii_of_N (48 + n) else ascii_of_N (87 + n).

(** [ESCAPE_ASCII]: the quote, the backslash and everything outside the
    printable ASCII range are escaped. *)
Definition escape_char (c : ascii) : string :=
  let n := N_of_ascii c in
  if (n =? 34)%N then String backslash (String dquote EmptyString)
  else if (n =? 92)%N then String backslash (String backslash EmptyString)
  else if (n =? 10)%N then String backslash "n"
  else if (n =? 13)%N then String backslash "r"
  else if (n =? 9)%N then String backslash "t"
  else if (n =? 8)%N then String backslash "b"
  else if (n =? 12)%N then String backslash "f"
  else if ((n <? 32) || (126 <? n))%N then
    String backslash
      (String "u" (String "0" (String "0"
         (String (hex_char (n / 16)) (String (hex_char (n mod 16)) EmptyString)))))
  else String c EmptyString.

Fixpoint escape (s : string) : string :=
  match s with
  | EmptyString => EmptyString
  | String c r => escape_char c ++ escape r
  end.

Definition quote (s : string) : string :=
  String dquote (escape s ++ String dquote EmptyString).

Definition print_int (z : Z) : string :=
  match z with
  | Z0 => "0"
  | Zpos p => DecimalString.NilEmpty.string_of_uint (Pos.to_uint p)
  | Zneg p => String "-" (DecimalString.NilEmpty.string_of_uint (Pos.to_uint p))
  end.

Fixpoint join_items (l : list string) : string :=
  match l with
  | [] => EmptyString
  | [x] => x
  | x :: r => x ++ ", " ++ join_items r
  end.

Fixpoint encode (v : json) : string :=
  match v with
  | JNull => "null"
  | JBool true => "true"
  | JBool false => "false"
  | JInt z => print_int z
  | JStr s => quote s
  | JList items => "[" ++ join_items (map encode items) ++ "]"
  | JDict members =>
      "{" ++ join_items
               (map (fun kv => quote (fst kv) ++ ": " ++ encode (snd kv)) members)
          ++ "}"
  end.

(** *** Decoder *)

Definition is_ws (c : ascii) : bool :=
  let n := N_of_ascii c in
  ((n =? 32) || (n =? 9) || (n =? 10) || (n =? 13))%N.

Fixpoint skip_ws (s : string) : string :=
  match s with
  | String c r => if is_ws c then skip_ws r else s
  | EmptyString => EmptyString
  end.

Fixpoint strip_prefix (p s : string) : option string :=
  match p, s with
  | EmptyString, _ => Some s
  | String a p', String b s' => if Ascii.eqb a b then strip_prefix p' s' else None
  | String _ _, EmptyString => None
  end.

Definition hex_val (c : ascii) : option N :=
  let n := N_of_ascii c in
  if ((48 <=? n) && (n <=? 57))%N then Some (n - 48)%N
  else if ((97 <=? n) && (n <=? 102))%N then Some (n - 87)%N
  else if ((65 <=? n) && (n <=? 70))%N then Some (n - 55)%N
  else None.

(** The four hex digits of a [\u] escape, as a character of the model. *)
Definition unicode_escape (a b c d : ascii) : option ascii :=
  match hex_val a, hex_val b, hex_val c, hex_val d with
  | Some x, Some y, Some z, Some w =>
      let n := (((x * 16 + y) * 16 + z) * 16 + w)%N in
      if (n <? 256)%N then Some (ascii_of_N n) else None
  | _, _, _, _ => None
  end.

Definition simple_escape (e : ascii) : option ascii :=
  let n := N_of_ascii e in
  if (n =? 34)%N then Some dquote
  else if (n =? 92)%N then Some backslash
  else if (n =? 47)%N then Some "/"%char
  else if (n =? 98)%N then Some "008"%char
  else if (n =? 102)%N then Some "012"%char
  else if (n =? 110)%N then Some "010"%char
  else if (n =? 114)%N then Some "013"%char
  else if (n =? 116)%N then Some "009"%char
  else None.

(** [scanstring]: the text after the opening quote, up to the closing one. *)
Fixpoint scan_string (s : string) : option (string * string) :=
  match s with
  | EmptyString => None
  | String c r =>
      if Ascii.eqb c dquote then Some (EmptyString, r)
      else if Ascii.eqb c backslash then
        match r with
        | String e r' =>
            if Ascii.eqb e "u" then
              match r' with
              | String h1 (String h2 (String h3 (String h4 r''))) =>
                  match unicode_escape h1 h2 h3 h4, scan_string r'' with
                  | Some x, Some (str, rest) => Some (String x str, rest)
                  | _, _ => None
                  end
              | _ => None
              end
            else
              match simple_escape e, scan_string r' with
              | Some x, Some (str, rest) => Some (String x str, rest)
              | _, _ => None
              end
        | EmptyString => None
        end
      else if ((N_of_ascii c <? 32) || (127 <? N_of_ascii c))%N then None
      else
        match scan_string r with
        | Some (str, rest) => Some (String c str, rest)
        | None => None
        end
  end.

Definition digit_cons (c : ascii) : option (Decimal.uint -> Decimal.uint) :=
  match (N_of_ascii c - 48)%N, ((48 <=? N_of_ascii c) && (N_of_ascii c <=? 57))%N with
  | 0%N, true => Some Decimal.D0
  | 1%N, true => Some Decimal.D1
  | 2%N, true => Some Decimal.D2
  | 3%N, true => Some Decimal.D3
  | 4%N, true => Some Decimal.D4
  | 5%N, true => Some Decimal.D5
  | 6%N, true => Some Decimal.D6
  | 7%N, true => Some Decimal.D7
  | 8%N, true => Some Decimal.D8
  | 9%N, true => Some Decimal.D9
  | _, _ => None
  end.

(** The longest run of digits at the head of a text. *)
Fixpoint scan_digits (s : string) : Decimal.uint * string :=
  match s with
  | String c r =>
      match digit_cons c with
      | Some k => let (u, rest) := scan_digits r in (k u, rest)
      | None => (Decimal.Nil, s)
      end
  | EmptyString => (Decimal.Nil, EmptyString)
  end.

(** A fraction or an exponent follows: the number is a float. *)
Definition float_follows (s : string) : bool :=
  match s with
  | String c _ =>
      let n := N_of_ascii c in ((n =? 46) || (n =? 101) || (n =? 69))%N
  | EmptyString => false
  end.

(** The digits of an integer: a single zero, or a run that does not start
    with zero. *)
Definition scan_natural (s : string) : option (N * string) :=
  match scan_digits s with
  | (Decimal.Nil, _) => None
  | (Decimal.D0 Decimal.Nil, rest) =>
      if float_follows rest then None else Some (0%N, rest)
  | (Decimal.D0 _, _) => None
  | (u, rest) =>
      if float_follows rest then None else Some (N.of_uint u, rest)
  end.

Definition scan_int (s : string) : option (json * string) :=
  match s with
  | String "-" r =>
      match scan_natural r with
      | Some (n, rest) => Some (JInt (- Z.of_N n), rest)
      | None => None
      end
  | _ =>
      match scan_natural s with
      | Some (n, rest) => Some (JInt (Z.of_N n), rest)
      | None => None
      end
  end.

(** [d[k] = v] on a dictionary kept in insertion order. *)
Fixpoint dict_set (k : string) (v : json) (d : list (string * json))
    : list (string * json) :=
  match d with
  | [] => [(k, v)]
  | (k', v') :: r =>
      if String.eqb k k' then (k, v) :: r else (k', v') :: dict_set k v r
  end.

(** [dict(pairs)]: a repeated key keeps its place and takes the last value. *)
Definition dict_of_pairs (pairs : list (string * json)) : list (string * json) :=
  fold_left (fun d kv => dict_set (fst kv) (snd kv) d) pairs [].

(** The scanner: a value, the items of a list after the first bracket, the
    members of a dictionary after the first brace.  [fuel] bounds the
    nesting and the number of items. *)
Fixpoint scan_value (fuel : nat) (s : string) : option (json * string) :=
  match fuel with
  | O => None
  | S fuel' =>
      match skip_ws s with
      | EmptyString => None
      | String c r =>
          if Ascii.eqb c "n" then
            match strip_prefix "ull" r with
            | Some rest => Some (JNull, rest)
            | None => None
            end
          else if Ascii.eqb c "t" then
            match strip_prefix "rue" r with
            | Some rest => Some (JBool true, rest)
            | None => None
            end
          else if Ascii.eqb c "f" then
            match strip_prefix "alse" r with
            | Some rest => Some (JBool false, rest)
            | None => None
            end
          else if Ascii.eqb c dquote then
            match scan_string r with
            | Some (str, rest) => Some (JStr str, rest)
            | None => None
            end
          else if Ascii.eqb c "[" then
            match skip_ws r with
            | String "]" rest => Some (JList [], rest)
            | _ =>
                match scan_items fuel' r with
                | Some (items, rest) => Some (JList items, rest)
                | None => None
                end
            end
          else if Ascii.eqb c "{" then
            match skip_ws r with
            | String "}" rest => Some (JDict [], rest)
            | _ =>
                match scan_members fuel' r with
                | Some (pairs, rest) => Some (JDict (dict_of_pairs pairs), rest)
                | None => None
                end
            end
          else scan_int (String c r)
      end
  end

with scan_items (fuel : nat) (s : string) : option (list json * string) :=
  match fuel with
  | O => None
  | S fuel' =>
      match scan_value fuel' s with
      | Some (v, r) =>
          match skip_ws r with
          | String "," r' =>
              match scan_items fuel' r' with
              | Some (vs, rest) => Some (v :: vs, rest)
              | None => None
              end
          | String "]" rest => Some ([v], rest)
          | _ => None
          end
      | None => None
      end
  end

with scan_members (fuel : nat) (s : string)
    : option (list (string * json) * string) :=
  match fuel with
  | O => None
  | S fuel' =>
      match skip_ws s with
      | String c r =>
          if Ascii.eqb c dquote then
            match scan_string r with
            | Some (k, r1) =>
                match skip_ws r1 with
                | String ":" r2 =>
                    match scan_value fuel' r2 with
                    | Some (v, r3) =>
                        match skip_ws r3 with
                        | String "," r4 =>
                            match scan_members fuel' r4 with
                            | Some (kvs, rest) => Some ((k, v) :: kvs, rest)
                            | None => None
                            end
                        | String "}" rest => Some ([(k, v)], rest)
                        | _ => None
                        end
                    | None => None
                    end
                | _ => None
                end
            | None => None
            end
          else None
      | EmptyString => None
      end
  end.

(** The contents that are ASCII text. *)
Fixpoint ascii_only (s : string) : bool :=
  match s with
  | EmptyString => true
  | String c r => (N_of_ascii c <? 128)%N && ascii_only r
  end.

(** [json.loads]: one value, with nothing but white space around it. *)
Definition decode (s : string) : option json :=
  match scan_value (S (String.length s)) s with
  | Some (v, rest) =>
      match skip_ws rest with
      | EmptyString => Some v
      | String _ _ => None
      end
  | None => None
  end.

(** The values a Python dictionary can hold: within one dictionary every
    key occurs once. *)
Fixpoint distinct_keys (l : list string) : bool :=
  match l with
  | [] => true
  | k :: r => negb (existsb (String.eqb k) r) && distinct_keys r
  end.

Fixpoint well_formed (v : json) : bool :=
  match v with
  | JList items => forallb well_formed items
  | JDict members =>
      distinct_keys (map fst members)
      && forallb (fun kv => well_formed (snd kv)) members
  | _ => true
  end.

Fixpoint size (v : json) : nat :=
  match v with
  | JList items => S (list_sum (map (fun x => S (size x)) items))
  | JDict members => S (list_sum (map (fun kv => S (size (snd kv))) members))
  | _ => 1%nat
  end.

(** *** Measures and shapes used to reason about the scanner *)

(** The first character of an encoded document. *)
Definition opens_value (c : ascii) : bool :=
  negb (is_ws c) && negb (Ascii.eqb c "]") && negb (Ascii.eqb c "}")
  && negb (Ascii.eqb c ",") && negb (Ascii.eqb c ":").

Definition items_weight (items : list json) : nat :=
  list_sum (map (fun x => S (size x)) items).

Definition members_weight (members : list (string * json)) : nat :=
  list_sum (map (fun kv => S (size (snd kv))) members).

Definition member_text (kv : string * json) : string :=
  quote (fst kv) ++ ": " ++ encode (snd kv).

(** A text that cannot continue a number: it is empty or starts with no
    digit, point or exponent mark. *)
Definition closes_number (rest : string) : bool :=
  match rest with
  | EmptyString => true
  | String c _ =>
      match digit_cons c with
      | Some _ => false
      | None => negb (float_follows rest)
      end
  end.

(** The scanner reads an encoded [v] back, given fuel beyond its size. *)
Definition scans (v : json) : Prop :=
  forall (fuel : nat) (rest : string),
    (size v < fuel)%nat -> closes_number rest = true ->
    scan_value fuel (encode v ++ rest) = Some (v, rest).

End Json.

#[export] Instance json_text : JsonCodec Json.json :=
  {| dumps := Json.encode;
     loads := Json.decode;
     decodes_as_text := Json.ascii_only;
     json_value := fun v => Json.well_formed v = true |}.

(** ** Paths and the file system *)

Module Fs.

(** A [pathlib] path: whether it starts at the root, whether it starts with
    exactly two slashes, which [pathlib] keeps, and its components.  Empty
    components and [.] are dropped when the path is built; [..] is kept. *)
Record PurePath : Type := {
  anchored : bool;
  doubled : bool;
  parts : list string;
}.

Fixpoint split_slash (s : string) : list string :=
  match s with
  | EmptyString => [EmptyString]
  | String c r =>
      if Ascii.eqb c "/" then EmptyString :: split_slash r
      else match split_slash r with
           | h :: t => String c h :: t
           | [] => [String c EmptyString]
           end
  end.

Definition kept (c : string) : bool :=
  negb (String.eqb c EmptyString) && negb (String.eqb c ".").

Definition Path (s : string) : PurePath :=
  {| anchored := String.prefix "/" s;
     doubled := String.prefix "//" s && negb (String.prefix "///" s);
     parts := List.filter kept (split_slash s) |}.

(** [p / s] *)
Definition joinpath (p : PurePath) (s : string) : PurePath :=
  let q := Path s in
  if anchored q then q
  else {| anchored := anchored p;
          doubled := doubled p;
          parts := (parts p ++ parts q)%list |}.

(** The bytes of a text in the encoding of file names, UTF-8: one for a
    character below 128 and two for the others of the model. *)
Fixpoint encoded_length (s : string) : Z :=
  match s with
  | EmptyString => 0
  | String c r => (if (N_of_ascii c <? 128)%N then 1 else 2) + encoded_length r
  end.

(** The bytes of [str(p)], the text handed to the system. *)
Fixpoint joined_length (comps : list string) : Z :=
  match comps with
  | [] => 0
  | [c] => encoded_length c
  | c :: rest => encoded_length c + 1 + joined_length rest
  end.

Definition path_length (p : PurePath) : Z :=
  if anchored p
  then (if doubled p then 2 else 1) + joined_length (parts p)
  else match parts p with
       | [] => 1
       | _ => joined_length (parts p)
       end.

(** The limits of Linux on a component and on a whole path, the latter
    counting the byte that ends the text. *)
Definition NAME_MAX : Z := 255.
Definition PATH_MAX : Z := 4096.

Definition name_fits (c : string) : bool := encoded_length c <=? NAME_MAX.

Fixpoint has_nul (s : string) : bool :=
  match s with
  | EmptyString => false
  | String c r => (N_of_ascii c =? 0)%N || has_nul r
  end.

(** The entries of the file system, by their place from the root: POSIX
    without links, and without permissions: the process may search every
    directory and open every file. *)
Inductive node : Type :=
  | Dir
  | File (content : string).

Definition location : Type := list string.

Record fs : Type := { cwd : location; nodes : gmap (list string) node }.

Definition is_dir (st : fs) (p : location) : bool :=
  match p with
  | [] => true
  | _ => match nodes st !! p with Some Dir => true | _ => false end
  end.

Definition present (st : fs) (p : location) : bool :=
  match p with
  | [] => true
  | _ => match nodes st !! p with Some _ => true | None => false end
  end.

Definition step (cur : location) (c : string) : location :=
  if String.eqb c ".." then removelast cur else (cur ++ [c])%list.

(** Path resolution: every component is looked up in a directory, which
    refuses a name longer than [NAME_MAX]. *)
Fixpoint walk (st : fs) (cur : location) (comps : list string) : res location :=
  match comps with
  | [] => Ok cur
  | c :: rest =>
      if is_dir st cur then
        if name_fits c then walk st (step cur c) rest
        else Raise (OSError ENAMETOOLONG)
      else if present st cur then Raise NotADirectoryError
      else Raise FileNotFoundError
  end.

(** The paths refused before anything is looked up: Python refuses a text
    with a NUL character before any call is made, and the system a text
    that does not fit in [PATH_MAX] bytes. *)
Definition refused (p : PurePath) : option exn :=
  if existsb has_nul (parts p) then Some (ValueError "embedded null byte")
  else if PATH_MAX <=? path_length p then Some (OSError ENAMETOOLONG)
  else None.

(** What a system call does with the path [p]. *)
Definition resolve (st : fs) (p : PurePath) : res location :=
  match refused p with
  | Some e => Raise e
  | None => walk st (if anchored p then [] else cwd st) (parts p)
  end.

(** The errors of [stat] that [Path.exists] answers with [False]: those of
    a ignored entry, and the [ValueError] of a text that is no path. *)
Definition ignored (e : exn) : bool :=
  match e with
  | FileNotFoundError | NotADirectoryError | ValueError _ => true
  | _ => false
  end.

(** [Path.exists]: any other error of [stat] is raised. *)
Definition path_exists (st : fs) (p : PurePath) : res bool :=
  match resolve st p with
  | Ok q => Ok (present st q)
  | Raise e => if ignored e then Ok false else Raise e
  end.

(** [open(p)]: the content of the file, for [read] to decode. *)
Definition read_text (st : fs) (p : PurePath) : res string :=
  match resolve st p with
  | Ok q =>
      if is_dir st q then Raise IsADirectoryError
      else match nodes st !! q with
           | Some (File s) => Ok s
           | _ => Raise FileNotFoundError
           end
  | Raise e => Raise e
  end.

(** The file system with the file at [q] holding [text]. *)
Definition store (st : fs) (q : location) (text : string) : fs :=
  {| cwd := cwd st; nodes := <[q := File text]> (nodes st) |}.

(** [open(p, "w")]: the file is created, or emptied if it exists.  The
    result is the place of the file, to write to. *)
Definition open_write (st : fs) (p : PurePath) : res (location * fs) :=
  match resolve st p with
  | Ok q =>
      if is_dir st q then Raise IsADirectoryError
      else Ok (q, store st q EmptyString)
  | Raise e => Raise e
  end.

(** [f.write(text)] on a file opened for writing. *)
Definition append_text (st : fs) (q : location) (text : string) : fs :=
  match nodes st !! q with
  | Some (File s) => store st q (s ++ text)
  | _ => st
  end.

End Fs.

(** ** The world the module runs in *)

Record http_request : Type := { req_url : string; req_token : string }.
Record http_response : Type := { status : Z; body : string }.

(** The file system, the server behind the transport, and the requests the
    transport has carried so far. *)
Record world : Type := {
  files : Fs.fs;
  transport : http_request -> http_response;
  sent : list http_request;
}.

Definition with_files (w : world) (st : Fs.fs) : world :=
  {| files := st; transport := transport w; sent := sent w |}.

(** Computations that read and change the world and may raise. *)
Definition M (A : Type) : Type := world -> res A * world.

#[export] Instance M_ret : MRet M := fun A a w => (Ok a, w).

#[export] Instance M_bind : MBind M := fun A B f m w =>
  match m w with
  | (Ok a, w') => f a w'
  | (Raise e, w') => (Raise e, w')
  end.

Definition raise {A : Type} (e : exn) : M A := fun w => (Raise e, w).

Definition lift {A : Type} (r : res A) : M A := fun w => (r, w).

Definition path_exists (p : Fs.PurePath) : M bool :=
  fun w => (Fs.path_exists (files w) p, w).

Definition read_text (p : Fs.PurePath) : M string :=
  fun w => (Fs.read_text (files w) p, w).

Definition open_write (p : Fs.PurePath) : M Fs.location :=
  fun w =>
    match Fs.open_write (files w) p with
    | Ok (q, st) => (Ok q, with_files w st)
    | Raise e => (Raise e, w)
    end.

Definition write (f : Fs.location) (text : string) : M unit :=
  fun w => (Ok tt, with_files w (Fs.append_text (files w) f text)).

(** ** The response cache *)

Section Cache.
Context {Doc : Type} {C : JsonCodec Doc}.

(** [CACHE_DIR = Path("DEFAULT_CACHE_DIR")]: the directory is named by the
    literal text, not by the value of [DEFAULT_CACHE_DIR]. *)
Definition CACHE_DIR : Fs.PurePath := Fs.Path "DEFAULT_CACHE_DIR".

Definition cached_file (body : string) : Fs.PurePath :=
  Fs.joinpath CACHE_DIR (body ++ ".json").

(** [json.load(f)], for a file of content [text]. *)
Definition json_load (text : string) : M Doc :=
  match loads text with
  | Some d => mret d
  | None =>
      if decodes_as_text text then raise JSONDecodeError
      else raise UnicodeDecodeError
  end.

(** The result is [None] on a miss and the decoded document on a hit; the
    document decoded from the text [null] is Python's [None] as well. *)
Definition _load_file_from_cache (body : string) : M (option Doc) :=
  found ← path_exists (cached_file body);
  if found : bool then
    text ← read_text (cached_file body);
    d ← json_load text;
    mret (Some d)
  else mret None.

(** The document is one [json.dump] encodes: an error of the encoder, which
    would come once the file is opened and emptied, is outside the model. *)
Definition _save_to_cache (body : string) (data : Doc) : M unit :=
  f ← open_write (cached_file body);
  write f (dumps data).

(** A save that stops after [written] characters have reached the file:
    the file has been opened, hence emptied, and holds the head of the
    text. *)
Definition interrupted_save (written : nat) (body : string) (data : Doc) : M unit :=
  f ← open_write (cached_file body);
  write f (substring 0 written (dumps data)).

(** [_fetch_json_payload]: the body is [pass]; the call returns [None]. *)
Definition _fetch_json_payload (url token : string) : M (option Doc) :=
  mret None.

End Cache.

(** ** Token capture *)

Module Capture.

(** What the handler can see of a browser request: the [url] attribute,
    absent on an object that has none, and the headers. *)
Record request : Type := {
  url : option string;
  headers : gmap string string;
}.

Record TokenCapture : Type := {
  target_domain : string;
  captured_token : option string;
}.

(** [__init__] *)
Definition init (target_domain : string) : TokenCapture :=
  {| target_domain := target_domain; captured_token := None |}.

(** Truth value of a [str | None]. *)
Definition truthy (v : option string) : bool :=
  match v with
  | Some (String _ _) => true
  | _ => false
  end.

(** [needle in hay] *)
Fixpoint contains (hay needle : string) : bool :=
  String.prefix needle hay
  || match hay with
     | String _ r => contains r needle
     | EmptyString => false
     end.

(** [getattr(request, "url", None)] *)
Definition _get_request_url (self : TokenCapture) (r : request) : option string :=
  url r.

(** The body is [pass]: the result is [None]. *)
Definition _get_auth_header (self : TokenCapture) (r : request) : option string :=
  None.

(** The body is [pass]: the result is [None], which is false as a test. *)
Definition _is_valid_bearer_token (self : TokenCapture) (auth_header : string)
    : option bool :=
  None.

Definition holds (v : option bool) : bool :=
  match v with
  | Some b => b
  | None => false
  end.

Definition handle_request (self : TokenCapture) (r : request) : TokenCapture :=
  if truthy (captured_token self) then self
  else
    let url := _get_request_url self r in
    if negb (truthy url)
       || negb (contains (default EmptyString url) (target_domain self))
    then self
    else
      let author_header := _get_auth_header self r in
      if negb (truthy author_header) then self
      else if holds (_is_valid_bearer_token self (default EmptyString author_header))
      then {| target_domain := target_domain self;
              captured_token := author_header |}
      else self.

Definition get_token (self : TokenCapture) : option string :=
  captured_token self.

(** The handler called on each request of a browser session, in order. *)
Definition observe (self : TokenCapture) (session : list request) : TokenCapture :=
  fold_left handle_request session self.

(** [_fetch_token_via_playwright], for a browser that starts, navigates and
    closes without raising anything but the suppressed [TimeoutError]: the
    session is given by the requests it makes.  An error of the browser
    itself would leave the function as it is raised. *)
Definition _fetch_token_via_playwright (session : list request)
    (api_domain : string) : res string :=
  let token_capture_handler := observe (init api_domain) session in
  let captured_token := get_token token_capture_handler in
  if truthy captured_token then Ok (default EmptyString captured_token)
  else Raise (PlainException "Failed to capture token").

End Capture.

(** ** Notions used by the properties *)

(** How the iteration ends once the last day has been yielded: adding a day
    to 9999-12-31 overflows. *)
Definition ending_after (range_end : date) : ending :=
  if date_eqb range_end date_max then Failed OverflowError else Exhausted.

Definition days_in_year (y : Z) : Z := if is_leap y then 366 else 365.

(** The format the docstring and the error message name: a text that is
    exactly the YYYY-MM-DD form of a valid date. *)
Definition well_formed_calendar_date (s : string) : bool :=
  match IsoText.parse_date s with
  | Some (_, EmptyString) => true
  | _ => false
  end.

(** The file system once the module is imported in an empty working
    directory: the cache directory exists and is empty. *)
Definition fresh_files : Fs.fs :=
  {| Fs.cwd := []; Fs.nodes := {[ ["DEFAULT_CACHE_DIR"] := Fs.Dir ]} |}.

(** A server that rejects every request as unauthorised. *)
Definition unauthorised (r : http_request) : http_response :=
  {| status := 401; body := "{}" |}.

Definition fresh_world : world :=
  {| files := fresh_files; transport := unauthorised; sent := [] |}.

Definition fixtures_document : Json.json :=
  Json.JDict [("courseId", Json.JInt 12); ("courseName", Json.JStr "Ascot")].

Definition refreshed_document : Json.json :=
  Json.JDict [("courseId", Json.JInt 12); ("courseName", Json.JStr "Ayr")].

(** The cache holding [fixtures_document] under the key [fixtures]. *)
Definition cached_world : world :=
  with_files fresh_world
    (Fs.store fresh_files ["DEFAULT_CACHE_DIR"; "fixtures.json"]
       (Json.encode fixtures_document)).

(** The world after a sequence of saves, each with its key and its document,
    whether the save completed or raised. *)
Definition after_saves {Doc : Type} {C : JsonCodec Doc}
    (saves : list (string * Doc)) (w : world) : world :=
  fold_left (fun w' kd => snd (_save_to_cache (fst kd) (snd kd) w')) saves w.

(** A key of 300 characters. *)
Definition long_key : string := string_of_list_ascii (repeat "a"%char 300).

(** The file of the key [fixtures] holds the single byte 255. *)
Definition binary_content : string := String "255" EmptyString.

Definition binary_world : world :=
  with_files fresh_world
    (Fs.store fresh_files ["DEFAULT_CACHE_DIR"; "fixtures.json"] binary_content).

(** [API_BASE["fixture_list"]] *)
Definition fixture_list_url : string :=
  "https://api09.horseracing.software/bha/v1/racecourses/".

(** A browser session: two requests without a token, then the first request
    to the API domain that carries a bearer token, then a later one with
    another token. *)
Definition api_domain : string := "api09.horseracing.software".

Definition browser_session : list Capture.request :=
  [ {| Capture.url := Some "https://www.britishhorseracing.com/racing/results/";
       Capture.headers := ∅ |};
    {| Capture.url := Some "https://api09.horseracing.software/bha/v1/racecourses/";
       Capture.headers := ∅ |};
    {| Capture.url := Some "https://api09.horseracing.software/bha/v1/fixtures/";
       Capture.headers := {[ "authorization" := "Bearer first-token" ]} |};
    {| Capture.url := Some "https://api09.horseracing.software/bha/v1/races/";
       Capture.headers := {[ "authorization" := "Bearer second-token" ]} |} ].

(** ** Further notions: ranges with times, keys, import, overriding handlers *)

(** The number of days after the start's date that the generator yields:
    the end's date is left out when the start is later in its day than the
    end is in its own. *)
Definition days_after_start (range_start range_end : datetime) : Z :=
  toordinal (dt_date range_end) - toordinal (dt_date range_start)
  - (if dt_time range_end <? dt_time range_start then 1 else 0).

(** How the iteration over a range of two instants ends. *)
Definition ending_between (range_start range_end : datetime) : ending :=
  if date_eqb (dt_date range_end) date_max
     && (dt_time range_start <=? dt_time range_end)
  then Failed OverflowError
  else Exhausted.

(** A parser builds [datetime] objects, whose date is always valid. *)
Definition parses_valid (P : IsoParser) : Prop :=
  forall s dt, fromisoformat s = Some dt -> valid_date (dt_date dt) = true.

(** The states of a generator whose dates are valid and lie in the years
    1000 and later: the start it will parse, or the date it holds. *)
Definition sound_state {P : IsoParser} (g : generator) : Prop :=
  match g with
  | Created start_date_string _ =>
      forall range_start : datetime,
        fromisoformat start_date_string = Some range_start ->
        1000 <= year (dt_date range_start)
  | Suspended current_date _ =>
      valid_date (dt_date current_date) = true
      /\ 1000 <= year (dt_date current_date)
  | Closed => True
  end.

(** A key without path separator. *)
Fixpoint plain_key (body : string) : bool :=
  match body with
  | EmptyString => true
  | String c r => negb (Ascii.eqb c "/") && plain_key r
  end.

(** The place of the cache directory and of the file of a plain key. *)
Definition cache_place (st : Fs.fs) : Fs.location :=
  (Fs.cwd st ++ ["DEFAULT_CACHE_DIR"])%list.

Definition plain_place (st : Fs.fs) (body : string) : Fs.location :=
  (Fs.cwd st ++ ["DEFAULT_CACHE_DIR"; (body ++ ".json")%string])%list.

(** *** [CACHE_DIR.mkdir(exist_ok=True, parents=True)] *)

Module Startup.

(** The errors of [os.mkdir]: [FileExistsError], [FileNotFoundError],
    [NotADirectoryError], and every other error. *)
Inductive os_error : Type :=
  | EEXIST
  | ENOENT
  | ENOTDIR
  | Other (e : exn).

Definition make_dir (st : Fs.fs) (q : Fs.location) : Fs.fs :=
  {| Fs.cwd := Fs.cwd st; Fs.nodes := <[q := Fs.Dir]> (Fs.nodes st) |}.

(** [Path.is_dir] *)
Definition path_is_dir (st : Fs.fs) (p : Fs.PurePath) : bool :=
  match Fs.resolve st p with
  | Ok q => Fs.is_dir st q
  | Raise _ => false
  end.

(** [os.mkdir], the path given by its components in reverse: the last
    component is made in the directory the others lead to. *)
Definition os_mkdir (st : Fs.fs) (anchored : bool) (rparts : list string)
    : Fs.fs + os_error :=
  let start := if anchored then [] else Fs.cwd st in
  match Fs.refused {| Fs.anchored := anchored; Fs.doubled := false;
                      Fs.parts := rev rparts |} with
  | Some e => inr (Other e)
  | None =>
      match rparts with
      | [] => if Fs.is_dir st start then inr EEXIST else inr ENOENT
      | last :: rinit =>
          match Fs.walk st start (rev rinit) with
          | Ok dir =>
              if Fs.is_dir st dir then
                if Fs.name_fits last then
                  if Fs.present st (Fs.step dir last) then inr EEXIST
                  else inl (make_dir st (Fs.step dir last))
                else inr (Other (OSError ENAMETOOLONG))
              else if Fs.present st dir then inr ENOTDIR
              else inr ENOENT
          | Raise NotADirectoryError => inr ENOTDIR
          | Raise FileNotFoundError => inr ENOENT
          | Raise e => inr (Other e)
          end
      end
  end.

(** [mkdir(parents=False, exist_ok=True)] *)
Definition mkdir_exist_ok (st : Fs.fs) (anchored : bool) (rparts : list string)
    : Fs.fs + os_error :=
  match os_mkdir st anchored rparts with
  | inl st' => inl st'
  | inr ENOENT => inr ENOENT
  | inr e =>
      if path_is_dir st {| Fs.anchored := anchored; Fs.doubled := false;
                           Fs.parts := rev rparts |}
      then inl st else inr e
  end.

(** [mkdir(parents=True, exist_ok=True)]: on [FileNotFoundError] the parent
    is made first, unless the path is its own parent. *)
Fixpoint mkdir_parents (st : Fs.fs) (anchored : bool) (rparts : list string)
    : Fs.fs + os_error :=
  match os_mkdir st anchored rparts with
  | inl st' => inl st'
  | inr ENOENT =>
      match rparts with
      | [] => inr ENOENT
      | _ :: rparent =>
          match mkdir_parents st anchored rparent with
          | inl st' => mkdir_exist_ok st' anchored rparts
          | inr e => inr e
          end
      end
  | inr e =>
      if path_is_dir st {| Fs.anchored := anchored; Fs.doubled := false;
                           Fs.parts := rev rparts |}
      then inl st else inr e
  end.

(** What importing the module does to the file system. *)
Definition import_module (st : Fs.fs) : Fs.fs + os_error :=
  mkdir_parents st (Fs.anchored (Fs.Path "DEFAULT_CACHE_DIR"))
    (rev (Fs.parts (Fs.Path "DEFAULT_CACHE_DIR"))).

End Startup.

(** *** [handle_request] in a subclass *)

Module Handler.
Import Capture.

(** [handle_request] calls [self._get_auth_header] and
    [self._is_valid_bearer_token]: in a subclass that overrides them, these
    are the calls it makes. *)
Class Methods : Type := {
  get_auth_header : TokenCapture -> request -> option string;
  is_valid_bearer_token : TokenCapture -> string -> option bool;
}.

(** The methods of [TokenCapture] itself. *)
Definition base : Methods :=
  {| get_auth_header := _get_auth_header;
     is_valid_bearer_token := _is_valid_bearer_token |}.

Definition handle_request_of (Ms : Methods) (self : TokenCapture) (r : request)
    : TokenCapture :=
  if truthy (captured_token self) then self
  else
    let url := _get_request_url self r in
    if negb (truthy url)
       || negb (contains (default EmptyString url) (target_domain self))
    then self
    else
      let author_header := get_auth_header self r in
      if negb (truthy author_header) then self
      else if holds (is_valid_bearer_token self (default EmptyString author_header))
      then {| target_domain := target_domain self;
              captured_token := author_header |}
      else self.

Definition observe_of (Ms : Methods) (self : TokenCapture) (session : list request)
    : TokenCapture :=
  fold_left (handle_request_of Ms) session self.

(** The requests that pass every test of [handle_request]. *)
Definition qualifies (Ms : Methods) (self : TokenCapture) (r : request) : bool :=
  truthy (url r)
  && contains (default EmptyString (url r)) (target_domain self)
  && truthy (get_auth_header self r)
  && holds (is_valid_bearer_token self
              (default EmptyString (get_auth_header self r))).

End Handler.

(** *** Examples for the further properties *)

(** A working directory in which the module was never imported. *)
Definition empty_files : Fs.fs := {| Fs.cwd := []; Fs.nodes := ∅ |}.

(** A regular file stands where the cache directory should be. *)
Definition blocked_files : Fs.fs :=
  {| Fs.cwd := []; Fs.nodes := {[ ["DEFAULT_CACHE_DIR"] := Fs.File "notes" ]} |}.

(** A directory stands where the file of the key [fixtures] should be. *)
Definition directory_world : world :=
  with_files fresh_world
    (Startup.make_dir fresh_files ["DEFAULT_CACHE_DIR"; "fixtures.json"]).

(** A subclass that reads the [authorization] header and accepts the
    [Bearer] scheme. *)
Definition bearer_methods : Handler.Methods :=
  {| Handler.get_auth_header := fun _ r => Capture.headers r !! "authorization";
     Handler.is_valid_bearer_token := fun _ h => Some (String.prefix "Bearer " h) |}.

(** ** The calendar *)

Section CalendarFacts.

Lemma days_before_year_succ (y : Z) :
  days_before_year (y + 1)
  = days_before_year y + (if is_leap y then 366 else 365).
Proof.
  unfold days_before_year, is_leap.
  replace (y + 1 - 1) with y by lia.
  destruct (Z.eqb_spec (y mod 4) 0), (Z.eqb_spec (y mod 100) 0),
    (Z.eqb_spec (y mod 400) 0); cbn [negb andb orb];
    Z.div_mod_to_equations; lia.
Qed.

Lemma days_before_year_mono (a b : Z) :
  a <= b -> days_before_year a + 365 * (b - a) <= days_before_year b.
Proof.
  intros Hab. replace b with (a + Z.of_nat (Z.to_nat (b - a))) by lia.
  induction (Z.to_nat (b - a)) as [|n IH].
  - replace (a + Z.of_nat 0) with a by lia. lia.
  - replace (a + Z.of_nat (S n)) with (a + Z.of_nat n + 1) by lia.
    rewrite days_before_year_succ. destruct (is_leap _); lia.
Qed.

Lemma valid_date_fields (d : date) :
  valid_date d = true ->
  1 <= year d <= 9999 /\ 1 <= month d <= 12
  /\ 1 <= day d <= days_in_month (year d) (month d).
Proof. unfold valid_date, MINYEAR, MAXYEAR. lia. Qed.

Lemma month_cases (m : Z) :
  1 <= m <= 12 ->
  m = 1 \/ m = 2 \/ m = 3 \/ m = 4 \/ m = 5 \/ m = 6
  \/ m = 7 \/ m = 8 \/ m = 9 \/ m = 10 \/ m = 11 \/ m = 12.
Proof. lia. Qed.

Lemma day_of_year_bounds (d : date) :
  valid_date d = true ->
  1 <= days_before_month (year d) (month d) + day d <= days_in_year (year d).
Proof.
  intros Hv. apply valid_date_fields in Hv as (_ & Hm & Hd).
  destruct d as [y m dd]; cbn [year month day] in *.
  unfold days_before_month, days_in_month, days_in_year in *.
  destruct (month_cases m Hm) as
    [->|[->|[->|[->|[->|[->|[->|[->|[->|[->|[->| ->]]]]]]]]]]];
    cbn in *; destruct (is_leap y); cbn in *; lia.
Qed.

Lemma valid_day_le_31 (d : date) : valid_date d = true -> day d <= 31.
Proof.
  intros Hv. apply valid_date_fields in Hv as (_ & Hm & Hd).
  destruct d as [y m dd]; cbn [year month day] in *.
  unfold days_in_month in Hd.
  destruct (month_cases m Hm) as
    [->|[->|[->|[->|[->|[->|[->|[->|[->|[->|[->| ->]]]]]]]]]]];
    cbn in Hd; destruct (is_leap y); cbn in Hd; lia.
Qed.

Lemma toordinal_year_lt (a b : date) :
  valid_date a = true -> valid_date b = true ->
  year a < year b -> toordinal a < toordinal b.
Proof.
  intros Ha Hb Hy. unfold toordinal.
  pose proof (day_of_year_bounds a Ha) as Ba.
  pose proof (day_of_year_bounds b Hb) as Bb.
  pose proof (days_before_year_succ (year a)) as Hs.
  pose proof (days_before_year_mono (year a + 1) (year b) ltac:(lia)) as Hm.
  unfold days_in_year in *. destruct (is_leap (year a)); lia.
Qed.

Lemma toordinal_ltb (a b : date) :
  valid_date a = true -> valid_date b = true ->
  date_ltb a b = true -> toordinal a < toordinal b.
Proof.
  intros Ha Hb Hlt. unfold date_ltb in Hlt.
  destruct (Z.ltb_spec (year a) (year b)) as [Hy|Hy].
  { now apply toordinal_year_lt. }
  cbn [orb] in Hlt.
  destruct (Z.eqb_spec (year a) (year b)) as [Ey|]; [|discriminate].
  cbn [andb] in Hlt. unfold toordinal. rewrite <- Ey.
  apply valid_date_fields in Ha as (_ & Hma & Hda).
  apply valid_date_fields in Hb as (_ & Hmb & Hdb).
  rewrite <- Ey in Hdb.
  destruct a as [y ma da], b as [yb mb db]; cbn [year month day] in *.
  clear Ey Hy yb.
  destruct (Z.ltb_spec ma mb) as [Hm|Hm].
  - clear Hlt. unfold days_before_month, days_in_month in *.
    destruct (month_cases ma Hma) as
      [->|[->|[->|[->|[->|[->|[->|[->|[->|[->|[->| ->]]]]]]]]]]];
    destruct (month_cases mb Hmb) as
      [->|[->|[->|[->|[->|[->|[->|[->|[->|[->|[->| ->]]]]]]]]]]];
      try lia; cbn in *; destruct (is_leap y); cbn in *; lia.
  - cbn [orb] in Hlt.
    destruct (Z.eqb_spec ma mb) as [->|]; [|discriminate].
    cbn [andb] in Hlt. lia.
Qed.

Lemma date_eqb_eq (a b : date) : date_eqb a b = true <-> a = b.
Proof.
  destruct a, b; unfold date_eqb; cbn [year month day]. split.
  - intros H. f_equal; lia.
  - intros [= -> -> ->]. rewrite !Z.eqb_refl. reflexivity.
Qed.

Lemma date_trichotomy (a b : date) :
  date_ltb a b = true \/ a = b \/ date_ltb b a = true.
Proof.
  destruct a as [ya ma da], b as [yb mb db]; unfold date_ltb; cbn [year month day].
  destruct (Z.lt_total ya yb) as [?|[->|?]]; [left; lia| |right; right; lia].
  destruct (Z.lt_total ma mb) as [?|[->|?]]; [left; lia| |right; right; lia].
  destruct (Z.lt_total da db) as [?|[->|?]]; [left; lia| |right; right; lia].
  right; left; reflexivity.
Qed.

(** On valid dates the tuple order is the order of the ordinals. *)
Lemma toordinal_leb (a b : date) :
  valid_date a = true -> valid_date b = true ->
  (date_leb a b = true <-> toordinal a <= toordinal b).
Proof.
  intros Ha Hb. unfold date_leb. split.
  - intros H. apply orb_true_iff in H as [H|H].
    + apply toordinal_ltb in H; auto. lia.
    + apply date_eqb_eq in H as ->. lia.
  - intros H. destruct (date_trichotomy a b) as [Hl|[->|Hg]].
    + now rewrite Hl.
    + apply orb_true_iff; right. now apply date_eqb_eq.
    + apply toordinal_ltb in Hg; auto. lia.
Qed.

Lemma toordinal_inj (a b : date) :
  valid_date a = true -> valid_date b = true ->
  toordinal a = toordinal b -> a = b.
Proof.
  intros Ha Hb H. destruct (date_trichotomy a b) as [Hl|[->|Hg]]; auto.
  - apply toordinal_ltb in Hl; auto. lia.
  - apply toordinal_ltb in Hg; auto. lia.
Qed.

Lemma toordinal_date_max : toordinal date_max = 3652059.
Proof. reflexivity. Qed.

Lemma toordinal_upper (d : date) :
  valid_date d = true -> toordinal d <= toordinal date_max.
Proof.
  intros Hd. apply toordinal_leb; auto.
  pose proof (valid_day_le_31 d Hd) as H31.
  apply valid_date_fields in Hd as (Hy & Hm & Hdd).
  destruct d as [y m dd]; unfold date_leb, date_ltb, date_eqb, date_max;
    cbn [year month day] in *.
  lia.
Qed.

(** The next day exists for every valid date but the last one, is valid,
    and has the next ordinal. *)
Lemma date_succ_spec (d : date) :
  valid_date d = true ->
  match date_succ d with
  | Some d' => valid_date d' = true /\ toordinal d' = toordinal d + 1
  | None => d = date_max
  end.
Proof.
  intros Hv. apply valid_date_fields in Hv as (Hy & Hm & Hd).
  destruct d as [y m dd]; unfold date_succ, MAXYEAR; cbn [year month day] in *.
  destruct (Z.ltb_spec dd (days_in_month y m)) as [Hlt|Hge].
  { split.
    - unfold valid_date, MINYEAR, MAXYEAR; cbn [year month day]. lia.
    - unfold toordinal; cbn [year month day]. lia. }
  assert (dd = days_in_month y m) as -> by lia. clear Hge Hd.
  destruct (Z.ltb_spec m 12) as [Hm12|Hm12].
  { unfold valid_date, toordinal, MINYEAR, MAXYEAR, days_before_month,
      days_in_month; cbn [year month day].
    destruct (month_cases m Hm) as
      [->|[->|[->|[->|[->|[->|[->|[->|[->|[->|[->| ->]]]]]]]]]]];
      try lia;
      repeat match goal with
        | |- context [Z.pos ?p + 1] =>
            let v := eval vm_compute in (Z.pos p + 1) in
            change (Z.pos p + 1) with v
        end;
      cbn; destruct (is_leap y); cbn; split; lia. }
  assert (m = 12) as -> by lia.
  destruct (Z.ltb_spec y 9999) as [Hy9|Hy9].
  - unfold valid_date, toordinal, MINYEAR, MAXYEAR; cbn [year month day].
    rewrite days_before_year_succ.
    unfold days_before_month, days_in_month. cbn.
    destruct (is_leap y); cbn; split; lia.
  - assert (y = 9999) as -> by lia. reflexivity.
Qed.

End CalendarFacts.

(** ** Formatting and parsing dates *)

Section IsoTextFacts.

Lemma append_cons (c : ascii) (s t : string) :
  (String c s ++ t)%string = String c (s ++ t).
Proof. reflexivity. Qed.

Lemma append_nil_l (t : string) : ("" ++ t)%string = t.
Proof. reflexivity. Qed.

Lemma append_nil_r (s : string) : (s ++ "")%string = s.
Proof.
  induction s as [|c s IH]; [reflexivity|]. now rewrite append_cons, IH.
Qed.

Lemma append_assoc (a b c : string) :
  ((a ++ b) ++ c)%string = (a ++ (b ++ c))%string.
Proof.
  induction a as [|x a IH]; [reflexivity|]. now rewrite !append_cons, IH.
Qed.

Lemma digit_val_char (n : Z) :
  0 <= n <= 9 -> digit_val (digit_char n) = Some n.
Proof.
  intros H. rewrite <- (Z2Nat.id n) by lia.
  assert (Z.to_nat n < 10)%nat as Hk by lia.
  revert Hk. generalize (Z.to_nat n). intros k Hk.
  do 10 (destruct k as [|k]; [reflexivity|]). lia.
Qed.

Lemma two_digits_pad (n : Z) (rest : string) :
  0 <= n <= 99 ->
  exists a b, pad2 n = String a (String b EmptyString)
              /\ IsoText.two_digits a b = Some n.
Proof.
  intros H. exists (digit_char (n / 10)), (digit_char (n mod 10)).
  split; [reflexivity|]. unfold IsoText.two_digits.
  rewrite !digit_val_char by (Z.div_mod_to_equations; lia).
  f_equal. Z.div_mod_to_equations; lia.
Qed.

Lemma parse_date_isoformat (d : date) (rest : string) :
  valid_date d = true ->
  IsoText.parse_date (isoformat d ++ rest) = Some (d, rest).
Proof.
  intros Hv. pose proof (valid_date_fields d Hv) as (Hy & Hm & Hd).
  pose proof (valid_day_le_31 d Hv) as Hd31.
  destruct d as [y m dd]; cbn [year month day] in *.
  unfold isoformat, pad4, pad2; cbn [year month day].
  repeat (rewrite append_cons || rewrite append_nil_l).
  unfold IsoText.parse_date, IsoText.four_digits, IsoText.two_digits.
  rewrite !digit_val_char by (Z.div_mod_to_equations; lia).
  replace (100 * (10 * (y / 1000) + y / 100 mod 10)
           + (10 * (y mod 100 / 10) + y mod 100 mod 10)) with y
    by (Z.div_mod_to_equations; lia).
  replace (10 * (m / 10) + m mod 10) with m by (Z.div_mod_to_equations; lia).
  replace (10 * (dd / 10) + dd mod 10) with dd by (Z.div_mod_to_equations; lia).
  rewrite Hv. reflexivity.
Qed.

Lemma digit_char_inj (a b : Z) :
  0 <= a <= 9 -> 0 <= b <= 9 -> digit_char a = digit_char b -> a = b.
Proof.
  intros Ha Hb E. apply (f_equal digit_val) in E.
  rewrite !digit_val_char in E by assumption. now injection E.
Qed.

Lemma digit_char_not_dash (a : Z) : 0 <= a <= 9 -> digit_char a <> "-"%char.
Proof.
  intros Ha E. apply (f_equal digit_val) in E.
  rewrite digit_val_char in E by assumption. discriminate E.
Qed.

Lemma pad2_inj (a b : Z) (s t : string) :
  0 <= a <= 99 -> 0 <= b <= 99 ->
  (pad2 a ++ s)%string = (pad2 b ++ t)%string -> a = b /\ s = t.
Proof.
  intros Ha Hb E. unfold pad2 in E. rewrite !append_cons, !append_nil_l in E.
  injection E as E1 E2 E3.
  apply digit_char_inj in E1, E2; try (Z.div_mod_to_equations; lia).
  split; [Z.div_mod_to_equations; lia | exact E3].
Qed.

(** The year as [%Y] prints it, followed by the dash, determines the year. *)
Lemma year_text_inj (a b : Z) (s t : string) :
  1 <= a <= 9999 -> 1 <= b <= 9999 ->
  (year_text a ++ String "-" s)%string = (year_text b ++ String "-" t)%string ->
  a = b /\ s = t.
Proof.
  intros Ha Hb. unfold year_text, pad4, pad2.
  destruct (Z.ltb_spec a 10), (Z.ltb_spec a 100), (Z.ltb_spec a 1000);
    try lia;
    destruct (Z.ltb_spec b 10), (Z.ltb_spec b 100), (Z.ltb_spec b 1000);
    try lia;
    rewrite ?append_cons, ?append_nil_l; intros E;
    repeat match goal with
           | H : String _ _ = String _ _ |- _ =>
               let Hc := fresh "Hc" in injection H as Hc H
           end;
    repeat match goal with
           | H : digit_char _ = "-"%char |- _ =>
               apply digit_char_not_dash in H;
               [contradiction | Z.div_mod_to_equations; lia]
           | H : "-"%char = digit_char _ |- _ =>
               symmetry in H; apply digit_char_not_dash in H;
               [contradiction | Z.div_mod_to_equations; lia]
           | H : digit_char _ = digit_char _ |- _ =>
               apply digit_char_inj in H;
               [| Z.div_mod_to_equations; lia | Z.div_mod_to_equations; lia]
           end;
    (split; [Z.div_mod_to_equations; lia | assumption]).
Qed.

(** The texts of two valid dates differ when the dates do. *)
Lemma strftime_date_inj (a b : date) :
  valid_date a = true -> valid_date b = true ->
  strftime_date a = strftime_date b -> a = b.
Proof.
  intros Va Vb. pose proof (valid_date_fields a Va) as (Hya & Hma & Hda).
  pose proof (valid_date_fields b Vb) as (Hyb & Hmb & Hdb).
  pose proof (valid_day_le_31 a Va). pose proof (valid_day_le_31 b Vb).
  destruct a as [ya ma da], b as [yb mb db]; cbn [year month day] in *.
  unfold strftime_date; cbn [year month day]. intros E.
  apply year_text_inj in E as [-> E]; [|assumption|assumption].
  apply pad2_inj in E as [-> E]; [|lia|lia].
  rewrite !append_cons, !append_nil_l in E. injection E as E1 E2.
  apply digit_char_inj in E1, E2; try (Z.div_mod_to_equations; lia).
  f_equal. Z.div_mod_to_equations; lia.
Qed.

(** From the year 1000 on the text is the ISO text. *)
Lemma strftime_date_isoformat (d : date) :
  1000 <= year d -> strftime_date d = isoformat d.
Proof.
  intros H. unfold strftime_date, isoformat, year_text.
  destruct (Z.ltb_spec (year d) 10); [lia|].
  destruct (Z.ltb_spec (year d) 100); [lia|].
  destruct (Z.ltb_spec (year d) 1000); [lia|]. reflexivity.
Qed.

(** The text parser honours the guarantee every release gives. *)
Lemma iso_text_parses_dates : parses_dates iso_text.
Proof.
  intros d Hv. cbn. unfold IsoText.parse.
  rewrite <- (append_nil_r (isoformat d)).
  rewrite parse_date_isoformat by exact Hv. reflexivity.
Qed.

End IsoTextFacts.

(** ** The daily date generator *)

Section GeneratorFacts.
Context {P : IsoParser}.

Lemma datetime_leb_midnight (a b : date) :
  datetime_leb (midnight a) (midnight b) = date_leb a b.
Proof.
  unfold datetime_leb, date_leb, midnight; cbn [dt_date dt_time].
  rewrite Z.leb_refl, andb_true_r. reflexivity.
Qed.

Lemma datetime_ltb_midnight (a b : date) :
  datetime_ltb (midnight a) (midnight b) = date_ltb a b.
Proof.
  unfold datetime_ltb, midnight; cbn [dt_date dt_time].
  rewrite Z.ltb_irrefl, andb_false_r, orb_false_r. reflexivity.
Qed.

Lemma add_one_day_midnight (d : date) :
  add_one_day (midnight d)
  = match date_succ d with Some d' => Some (midnight d') | None => None end.
Proof. reflexivity. Qed.

Lemma drain_S (fuel : nat) (g : generator) :
  drain (S fuel) g
  = match next g with
    | (Yield s, g') => let (ys, e) := drain fuel g' in (s :: ys, e)
    | (StopIteration, _) => ([], Exhausted)
    | (Raised e, _) => ([], Failed e)
    end.
Proof. reflexivity. Qed.

Lemma date_leb_false (a b : date) :
  valid_date a = true -> valid_date b = true ->
  toordinal b < toordinal a -> date_leb a b = false.
Proof.
  intros Ha Hb H. destruct (date_leb a b) eqn:E; [|reflexivity].
  apply toordinal_leb in E; auto. lia.
Qed.

Lemma date_ltb_leb (a b : date) :
  date_ltb b a = true -> date_leb a b = false.
Proof.
  destruct a as [ya ma da], b as [yb mb db].
  unfold date_leb, date_ltb, date_eqb; cbn [year month day]. lia.
Qed.

Lemma date_leb_ltb (a b : date) :
  date_leb a b = true -> date_ltb b a = false.
Proof.
  destruct a as [ya ma da], b as [yb mb db].
  unfold date_leb, date_ltb, date_eqb; cbn [year month day]. lia.
Qed.

Lemma days_from_head (d : date) (n : nat) :
  days_from d n = d :: tl (days_from d n).
Proof. destruct n; cbn; [reflexivity|]. now destruct (date_succ d). Qed.

(** Resuming after the day [current] was yielded. *)
Lemma drain_suspended (n : nat) : forall current range_end : date,
  valid_date current = true -> valid_date range_end = true ->
  toordinal range_end = toordinal current + Z.of_nat n ->
  drain (S n) (Suspended (midnight current) (midnight range_end))
  = (map strftime_date (tl (days_from current n)), ending_after range_end).
Proof.
  induction n as [|n IH]; intros current range_end Hc He Hn.
  - assert (current = range_end) as ->
      by (apply toordinal_inj; auto; lia).
    rewrite drain_S. cbn [next days_from tl map]. rewrite add_one_day_midnight.
    pose proof (date_succ_spec range_end He) as Hs. unfold ending_after.
    destruct (date_succ range_end) as [d'|].
    + destruct Hs as [Hv Ho]. unfold loop.
      rewrite datetime_leb_midnight, date_leb_false by (auto; lia).
      destruct (date_eqb range_end date_max) eqn:E; [|reflexivity].
      apply date_eqb_eq in E. subst range_end.
      rewrite toordinal_date_max in Ho.
      pose proof (toordinal_upper d' Hv) as Hu.
      rewrite toordinal_date_max in Hu. lia.
    + subst range_end. reflexivity.
  - pose proof (date_succ_spec current Hc) as Hs.
    pose proof (toordinal_upper range_end He) as Hu.
    rewrite drain_S. cbn [next days_from]. rewrite add_one_day_midnight.
    destruct (date_succ current) as [d'|].
    + destruct Hs as [Hv Ho]. unfold loop.
      rewrite datetime_leb_midnight.
      assert (date_leb d' range_end = true) as ->
        by (apply toordinal_leb; auto; lia).
      rewrite (IH d' range_end) by (auto; lia).
      cbn [tl]. rewrite (days_from_head d' n) at 2. reflexivity.
    + subst current. lia.
Qed.

(** The whole iteration over a well-formed range. *)
Lemma drain_range (start_date end_date : date) :
  parses_dates P ->
  valid_date start_date = true -> valid_date end_date = true ->
  date_leb start_date end_date = true ->
  let n := Z.to_nat (toordinal end_date - toordinal start_date) in
  drain (S (S n))
    (_generate_daily_date_strings (isoformat start_date) (isoformat end_date))
  = (map strftime_date (days_from start_date n), ending_after end_date).
Proof.
  intros HP Hs He Hle n.
  pose proof (proj1 (toordinal_leb _ _ Hs He) Hle) as Ho.
  unfold _generate_daily_date_strings.
  rewrite drain_S. cbn [next]. rewrite (HP _ Hs), (HP _ He).
  rewrite datetime_ltb_midnight, (date_leb_ltb _ _ Hle).
  unfold loop. rewrite datetime_leb_midnight, Hle.
  rewrite drain_suspended by (auto; lia).
  rewrite (days_from_head start_date n) at 2. reflexivity.
Qed.

Lemma days_from_length (n : nat) : forall d : date,
  valid_date d = true ->
  toordinal d + Z.of_nat n <= toordinal date_max ->
  length (days_from d n) = S n.
Proof.
  induction n as [|n IH]; intros d Hv Hn; [reflexivity|].
  cbn [days_from]. pose proof (date_succ_spec d Hv) as Hs.
  destruct (date_succ d) as [d'|].
  - destruct Hs as [Hv' Ho]. cbn [length]. rewrite IH by (auto; lia).
    reflexivity.
  - subst d. lia.
Qed.

Lemma days_from_lookup (n : nat) : forall (d : date) (k : nat) (x : date),
  valid_date d = true ->
  days_from d n !! k = Some x ->
  valid_date x = true /\ toordinal x = toordinal d + Z.of_nat k.
Proof.
  induction n as [|n IH]; intros d k x Hv Hk.
  - destruct k as [|k]; cbn in Hk; [|discriminate].
    injection Hk as <-. split; [assumption | lia].
  - cbn [days_from] in Hk. pose proof (date_succ_spec d Hv) as Hs.
    destruct (date_succ d) as [d'|].
    + destruct Hs as [Hv' Ho]. destruct k as [|k]; cbn in Hk.
      * injection Hk as <-. split; [assumption | lia].
      * apply IH in Hk as [Hx Hox]; auto. split; [assumption | lia].
    + destruct k as [|k]; cbn in Hk; [|discriminate].
      injection Hk as <-. split; [assumption | lia].
Qed.

Lemma days_from_covers (n : nat) : forall d x : date,
  valid_date d = true -> valid_date x = true ->
  toordinal d <= toordinal x <= toordinal d + Z.of_nat n ->
  In x (days_from d n).
Proof.
  induction n as [|n IH]; intros d x Hv Hx Hr.
  - left. apply toordinal_inj; auto; lia.
  - destruct (Z.eq_dec (toordinal x) (toordinal d)) as [E|E].
    { rewrite days_from_head. left. apply toordinal_inj; auto. }
    cbn [days_from]. pose proof (date_succ_spec d Hv) as Hs.
    destruct (date_succ d) as [d'|].
    + destruct Hs as [Hv' Ho]. right. apply IH; auto; lia.
    + subst d. pose proof (toordinal_upper x Hx). lia.
Qed.

(** Adding a day never goes back a year. *)
Lemma date_succ_year (d d' : date) :
  date_succ d = Some d' -> year d <= year d'.
Proof.
  unfold date_succ. intros H.
  destruct (day d <? days_in_month (year d) (month d));
    [injection H as <-; cbn; lia|].
  destruct (month d <? 12); [injection H as <-; cbn; lia|].
  destruct (year d <? MAXYEAR); [injection H as <-; cbn; lia | discriminate].
Qed.

Lemma days_from_year (n : nat) : forall d x : date,
  In x (days_from d n) -> year d <= year x.
Proof.
  induction n as [|n IH]; intros d x Hin.
  - destruct Hin as [<-|[]]. lia.
  - cbn [days_from] in Hin. destruct (date_succ d) as [d'|] eqn:E.
    + destruct Hin as [<-|Hin]; [lia|].
      apply IH in Hin. apply date_succ_year in E. lia.
    + destruct Hin as [<-|[]]. lia.
Qed.

Lemma days_from_valid (n : nat) (d x : date) :
  valid_date d = true -> In x (days_from d n) -> valid_date x = true.
Proof.
  intros Hv Hin. apply list_elem_of_In, list_elem_of_lookup in Hin as [k Hk].
  now apply days_from_lookup in Hk.
Qed.

Lemma days_from_NoDup (n : nat) (d : date) :
  valid_date d = true -> NoDup (days_from d n).
Proof.
  intros Hv. apply NoDup_alt. intros i j x Hi Hj.
  apply days_from_lookup in Hi as [_ Hi], Hj as [_ Hj]; auto. lia.
Qed.

End GeneratorFacts.

(** ** The JSON codec *)

Section JsonText.
Import Json.

Lemma scan_string_escape_char (c : ascii) (tail : string) :
  scan_string (escape_char c ++ tail)
  = match scan_string tail with
    | Some (str, rest) => Some (String c str, rest)
    | None => None
    end.
Proof.
  destruct c as [[] [] [] [] [] [] [] []]; reflexivity.
Qed.

Lemma scan_string_escape (s rest : string) :
  scan_string (escape s ++ String dquote rest) = Some (s, rest).
Proof.
  induction s as [|c s IH].
  - reflexivity.
  - cbn [escape]. rewrite append_assoc, scan_string_escape_char, IH.
    reflexivity.
Qed.

Lemma scan_string_quote (s rest : string) :
  exists body, quote s ++ rest = String dquote body
               /\ scan_string body = Some (s, rest).
Proof.
  exists (escape s ++ String dquote rest). split.
  - unfold quote. rewrite append_cons, append_assoc. reflexivity.
  - apply scan_string_escape.
Qed.

End JsonText.

Section JsonNumbers.
Import Json.

Lemma scan_digits_uint (u : Decimal.uint) (rest : string) :
  closes_number rest = true ->
  scan_digits (DecimalString.NilEmpty.string_of_uint u ++ rest) = (u, rest).
Proof.
  intros Hr. induction u as [|u IH|u IH|u IH|u IH|u IH|u IH|u IH|u IH|u IH|u IH];
    cbn [DecimalString.NilEmpty.string_of_uint];
    rewrite ?append_cons, ?append_nil_l;
    try (cbn [scan_digits]; cbv [digit_cons]; cbn; rewrite IH; reflexivity).
  destruct rest as [|c r]; [reflexivity|].
  cbn [scan_digits]. unfold closes_number in Hr.
  destruct (digit_cons c); [discriminate | reflexivity].
Qed.

Lemma to_uint_head (p : positive) :
  match Pos.to_uint p with
  | Decimal.Nil | Decimal.D0 _ => False
  | _ => True
  end.
Proof.
  pose proof (DecimalPos.Unsigned.to_uint_nonnil p) as Hn.
  pose proof (DecimalPos.Unsigned.to_uint_nonzero p) as Hz.
  pose proof (DecimalPos.Unsigned.to_of (Pos.to_uint p)) as Hu.
  rewrite DecimalPos.Unsigned.of_to in Hu. cbn [N.to_uint] in Hu.
  destruct (Pos.to_uint p) as [|u|u|u|u|u|u|u|u|u|u] eqn:E; try exact I.
  - congruence.
  - symmetry in Hu. unfold Decimal.unorm in Hu.
    rewrite DecimalFacts.nzhead_D0 in Hu.
    destruct (Decimal.nzhead u) eqn:Eu; try discriminate Hu.
    + apply Hz. symmetry. exact Hu.
    + now apply (DecimalFacts.nzhead_nonzero u u0).
Qed.

Lemma closes_number_float (rest : string) :
  closes_number rest = true -> float_follows rest = false.
Proof.
  unfold closes_number. destruct rest as [|c r]; [reflexivity|].
  destruct (digit_cons c); [discriminate|].
  now destruct (float_follows (String c r)).
Qed.

Lemma scan_natural_pos (p : positive) (rest : string) :
  closes_number rest = true ->
  scan_natural (DecimalString.NilEmpty.string_of_uint (Pos.to_uint p) ++ rest)
  = Some (Npos p, rest).
Proof.
  intros Hr. unfold scan_natural. rewrite scan_digits_uint by exact Hr.
  pose proof (to_uint_head p) as Hh.
  pose proof (DecimalPos.Unsigned.of_to p) as Hof.
  rewrite (closes_number_float rest Hr).
  destruct (Pos.to_uint p) as [|u|u|u|u|u|u|u|u|u|u]; try contradiction;
    unfold N.of_uint; rewrite Hof; reflexivity.
Qed.

Lemma uint_text_head (p : positive) :
  exists c r,
    DecimalString.NilEmpty.string_of_uint (Pos.to_uint p) = String c r
    /\ digit_cons c <> None.
Proof.
  pose proof (to_uint_head p) as Hh.
  destruct (Pos.to_uint p) as [|u|u|u|u|u|u|u|u|u|u]; try contradiction;
    cbn [DecimalString.NilEmpty.string_of_uint]; eexists _, _;
    (split; [reflexivity | discriminate]).
Qed.

Lemma digit_not_minus (c : ascii) :
  digit_cons c <> None -> Ascii.eqb c "-" = false.
Proof.
  destruct (Ascii.eqb_spec c "-") as [->|]; [|reflexivity].
  intros H. now contradiction H.
Qed.

Lemma scan_int_print (z : Z) (rest : string) :
  closes_number rest = true ->
  scan_int (print_int z ++ rest) = Some (JInt z, rest).
Proof.
  intros Hr. destruct z as [|p|p]; unfold print_int.
  - rewrite append_cons, append_nil_l. unfold scan_int, scan_natural.
    change (String "0" rest)
      with (DecimalString.NilEmpty.string_of_uint (Decimal.D0 Decimal.Nil) ++ rest).
    rewrite scan_digits_uint by exact Hr.
    rewrite (closes_number_float rest Hr). reflexivity.
  - destruct (uint_text_head p) as (c & r & E & Hd).
    pose proof (scan_natural_pos p rest Hr) as Hs. rewrite E in *.
    rewrite append_cons in *. unfold scan_int.
    pose proof (digit_not_minus c Hd) as Hm.
    destruct c as [[] [] [] [] [] [] [] []]; try discriminate Hm;
      rewrite Hs; reflexivity.
  - rewrite append_cons. unfold scan_int.
    rewrite scan_natural_pos by exact Hr. reflexivity.
Qed.

(** A text that starts with a sign or a digit is scanned as a number. *)
Lemma scan_value_number (fuel : nat) (c : ascii) (r : string) :
  Ascii.eqb c "-" = true \/ digit_cons c <> None ->
  scan_value (S fuel) (String c r) = scan_int (String c r).
Proof.
  intros [H|H].
  - apply Ascii.eqb_eq in H as ->. reflexivity.
  - destruct c as [[] [] [] [] [] [] [] []];
      try (now contradiction H); reflexivity.
Qed.

Lemma print_int_head (z : Z) :
  exists c r, print_int z = String c r
              /\ (Ascii.eqb c "-" = true \/ digit_cons c <> None).
Proof.
  destruct z as [|p|p]; unfold print_int.
  - eexists _, _. split; [reflexivity|]. right. discriminate.
  - destruct (uint_text_head p) as (c & r & E & Hd).
    exists c, r. split; [exact E | now right].
  - eexists _, _. split; [reflexivity|]. now left.
Qed.

Lemma scan_value_int (fuel : nat) (z : Z) (rest : string) :
  closes_number rest = true ->
  scan_value (S fuel) (print_int z ++ rest) = Some (JInt z, rest).
Proof.
  intros Hr. destruct (print_int_head z) as (c & r & E & Hc).
  pose proof (scan_int_print z rest Hr) as Hs. rewrite E in *.
  rewrite append_cons in *. rewrite scan_value_number by exact Hc.
  exact Hs.
Qed.

End JsonNumbers.

Ltac norm_append :=
  repeat first [rewrite append_assoc | rewrite append_cons | rewrite append_nil_l].

Section JsonValues.
Import Json.

(** Induction over documents, with the hypothesis for every item of a list
    and every value of a dictionary. *)
Lemma json_induction (Q : json -> Prop) :
  Q JNull ->
  (forall b, Q (JBool b)) ->
  (forall z, Q (JInt z)) ->
  (forall s, Q (JStr s)) ->
  (forall items, Forall Q items -> Q (JList items)) ->
  (forall members, Forall (fun kv => Q (snd kv)) members -> Q (JDict members)) ->
  forall v, Q v.
Proof.
  intros Hn Hb Hi Hs Hl Hd. fix IH 1. intros [| b | z | s | items | members].
  - exact Hn.
  - apply Hb.
  - apply Hi.
  - apply Hs.
  - apply Hl. induction items as [|x r IHr]; constructor; [apply IH | exact IHr].
  - apply Hd. induction members as [|[k x] r IHr]; constructor;
      [apply IH | exact IHr].
Qed.

Lemma length_append (a b : string) :
  String.length (a ++ b) = (String.length a + String.length b)%nat.
Proof.
  induction a as [|c a IH]; [reflexivity|].
  rewrite append_cons. cbn [String.length]. now rewrite IH.
Qed.

Lemma skip_ws_space (s : string) : skip_ws (String " " s) = skip_ws s.
Proof. reflexivity. Qed.

Lemma scan_value_space (fuel : nat) (s : string) :
  scan_value fuel (String " " s) = scan_value fuel s.
Proof. destruct fuel; reflexivity. Qed.

Lemma encode_head (v : json) :
  exists c r, encode v = String c r /\ opens_value c = true.
Proof.
  destruct v as [| [] | z | s | items | members]; cbn [encode];
    try (eexists _, _; split; [reflexivity | reflexivity]).
  - destruct (print_int_head z) as (c & r & E & [H|H]).
    + exists c, r. split; [exact E|]. apply Ascii.eqb_eq in H as ->. reflexivity.
    + exists c, r. split; [exact E|].
      destruct c as [[] [] [] [] [] [] [] []];
        try (now contradiction H); reflexivity.
Qed.

Lemma skip_ws_opens (c : ascii) (r : string) :
  opens_value c = true -> skip_ws (String c r) = String c r.
Proof.
  unfold opens_value. intros H. cbn [skip_ws].
  destruct (is_ws c); [discriminate | reflexivity].
Qed.

Lemma closes_number_mark (c : ascii) (r : string) :
  c = ","%char \/ c = "]"%char \/ c = "}"%char ->
  closes_number (String c r) = true.
Proof. intros [->|[->| ->]]; reflexivity. Qed.

Lemma items_weight_cons (x : json) (r : list json) :
  items_weight (x :: r) = S (size x + items_weight r).
Proof. reflexivity. Qed.

Lemma members_weight_cons (kv : string * json) (r : list (string * json)) :
  members_weight (kv :: r) = S (size (snd kv) + members_weight r).
Proof. reflexivity. Qed.

Lemma scan_items_encode (items : list json) :
  Forall scans items -> items <> [] ->
  forall (fuel : nat) (rest : string),
    (items_weight items < fuel)%nat ->
    scan_items fuel (join_items (map encode items) ++ String "]" rest)
    = Some (items, rest).
Proof.
  intros Hall. induction Hall as [|x r Hx Hr IH]; [congruence|].
  intros _ fuel rest Hf. rewrite items_weight_cons in Hf.
  destruct fuel as [|fuel]; [lia|]. cbn [scan_items].
  destruct r as [|y r].
  - cbn [map join_items].
    rewrite Hx by (first [lia | now apply closes_number_mark; auto]).
    reflexivity.
  - change (join_items (map encode (x :: y :: r)))
      with (encode x ++ ", " ++ join_items (map encode (y :: r))).
    norm_append.
    rewrite Hx by (first [lia | now apply closes_number_mark; auto]).
    cbn [skip_ws is_ws]. change (is_ws ",") with false. cbv iota.
    assert (forall f s, scan_items f (String " " s) = scan_items f s) as Hsp.
    { intros [|f] s; [reflexivity|]. cbn [scan_items].
      now rewrite scan_value_space. }
    rewrite Hsp, IH by (first [discriminate | lia]).
    reflexivity.
Qed.

Lemma scan_members_encode (members : list (string * json)) :
  Forall (fun kv => scans (snd kv)) members -> members <> [] ->
  forall (fuel : nat) (rest : string),
    (members_weight members < fuel)%nat ->
    scan_members fuel (join_items (map member_text members) ++ String "}" rest)
    = Some (members, rest).
Proof.
  intros Hall. induction Hall as [|[k x] r Hx Hr IH]; [congruence|].
  intros _ fuel rest Hf. rewrite members_weight_cons in Hf.
  cbn [snd] in Hx, Hf.
  destruct fuel as [|fuel]; [lia|]. cbn [scan_members].
  assert (forall tail,
    member_text (k, x) ++ tail
    = String dquote (escape k ++ String dquote (String ":" (String " " (encode x ++ tail)))))
    as Hm.
  { intros tail. unfold member_text, quote. cbn [fst snd].
    norm_append. reflexivity. }
  destruct r as [|y r].
  - cbn [map join_items]. rewrite Hm.
    change (skip_ws (String dquote ?s)) with (String dquote s).
    cbn [skip_ws]. change (is_ws dquote) with false. cbv iota.
    change (Ascii.eqb dquote dquote) with true. cbv iota.
    rewrite scan_string_escape. cbn [skip_ws]. change (is_ws ":") with false.
    cbv iota. rewrite scan_value_space.
    rewrite Hx by (first [lia | now apply closes_number_mark; auto]).
    reflexivity.
  - change (join_items (map member_text ((k, x) :: y :: r)))
      with (member_text (k, x) ++ ", " ++ join_items (map member_text (y :: r))).
    rewrite append_assoc, Hm.
    cbn [skip_ws]. change (is_ws dquote) with false. cbv iota.
    change (Ascii.eqb dquote dquote) with true. cbv iota.
    rewrite scan_string_escape. cbn [skip_ws]. change (is_ws ":") with false.
    cbv iota. rewrite scan_value_space.
    norm_append.
    rewrite Hx by (first [lia | now apply closes_number_mark; auto]).
    cbn [skip_ws]. change (is_ws ",") with false. cbv iota.
    assert (forall f s, scan_members f (String " " s) = scan_members f s) as Hsp.
    { intros [|f] s; reflexivity. }
    rewrite Hsp, IH by (first [discriminate | lia]).
    reflexivity.
Qed.

End JsonValues.

Section JsonRoundTrip.
Import Json.

Lemma dict_set_fresh (k : string) (v : json) (d : list (string * json)) :
  existsb (String.eqb k) (map fst d) = false ->
  dict_set k v d = (d ++ [(k, v)])%list.
Proof.
  induction d as [|[k' v'] d IH]; intros H; [reflexivity|].
  cbn [map fst existsb] in H. apply orb_false_iff in H as [Hk Hd].
  cbn [dict_set]. rewrite Hk, IH by exact Hd. reflexivity.
Qed.

Lemma existsb_app_false (k : string) (a b : list string) :
  existsb (String.eqb k) a = false -> existsb (String.eqb k) b = false ->
  existsb (String.eqb k) (a ++ b)%list = false.
Proof. intros Ha Hb. rewrite existsb_app, Ha, Hb. reflexivity. Qed.

Lemma dict_fold_distinct (l acc : list (string * json)) :
  distinct_keys (map fst l) = true ->
  (forall k, In k (map fst l) -> existsb (String.eqb k) (map fst acc) = false) ->
  fold_left (fun d kv => dict_set (fst kv) (snd kv) d) l acc = (acc ++ l)%list.
Proof.
  revert acc. induction l as [|[k v] l IH]; intros acc Hd Hacc.
  - cbn. now rewrite List.app_nil_r.
  - cbn [map fst distinct_keys] in Hd. apply andb_true_iff in Hd as [Hk Hd].
    apply negb_true_iff in Hk.
    cbn [fold_left fst snd]. rewrite dict_set_fresh by (apply Hacc; now left).
    rewrite IH.
    + now rewrite <- List.app_assoc.
    + exact Hd.
    + intros k' Hin. rewrite List.map_app. apply existsb_app_false.
      * apply Hacc. now right.
      * cbn [map fst existsb]. rewrite orb_false_r.
        destruct (String.eqb_spec k' k) as [->|]; [|reflexivity].
        apply List.in_map_iff in Hin as ([k2 v2] & E & Hin). cbn in E. subst k2.
        assert (existsb (String.eqb k) (map fst l) = true) as Ht.
        { apply existsb_exists. exists k. split.
          - apply List.in_map_iff. now exists (k, v2).
          - apply String.eqb_refl. }
        congruence.
Qed.

Lemma dict_of_pairs_distinct (l : list (string * json)) :
  distinct_keys (map fst l) = true -> dict_of_pairs l = l.
Proof.
  intros H. unfold dict_of_pairs. rewrite dict_fold_distinct; auto.
Qed.

(** Scanning an encoded document gives the document and what follows. *)
Lemma scan_value_encode (v : json) : well_formed v = true -> scans v.
Proof.
  induction v as [| b | z | s | items IH | members IH] using json_induction;
    intros Hwf fuel rest Hf Hr; (destruct fuel as [|fuel]; [cbn in Hf; lia|]).
  - reflexivity.
  - destruct b; reflexivity.
  - cbn [encode]. now apply scan_value_int.
  - cbn [encode]. destruct (scan_string_quote s rest) as (body & E & Hs).
    rewrite E. cbn [scan_value skip_ws]. change (is_ws dquote) with false.
    cbv iota. change (Ascii.eqb dquote "n") with false.
    change (Ascii.eqb dquote "t") with false.
    change (Ascii.eqb dquote "f") with false.
    change (Ascii.eqb dquote dquote) with true. cbv iota.
    rewrite Hs. reflexivity.
  - cbn [encode well_formed size] in *. norm_append.
    assert (Forall scans items) as Hall.
    { apply List.Forall_forall. intros x Hx. rewrite List.Forall_forall in IH.
      apply IH; [exact Hx|]. rewrite forallb_forall in Hwf. now apply Hwf. }
    destruct items as [|x r]; [reflexivity|].
    destruct (encode_head x) as (c & t & E & Hc).
    pose proof (scan_items_encode (x :: r) Hall ltac:(discriminate) fuel rest
                  ltac:(unfold items_weight; lia)) as Hs.
    cbn [scan_value skip_ws]. change (is_ws "[") with false. cbv iota.
    change (Ascii.eqb "[" "n") with false. change (Ascii.eqb "[" "t") with false.
    change (Ascii.eqb "[" "f") with false.
    change (Ascii.eqb "[" dquote) with false.
    change (Ascii.eqb "[" "[") with true. cbv iota.
    rewrite Hs.
    assert (exists t', join_items (map encode (x :: r)) ++ String "]" rest
                       = String c t') as (t' & Et).
    { destruct r as [|y r]; cbn [map join_items]; rewrite E; norm_append;
        eexists; reflexivity. }
    rewrite Et, skip_ws_opens by exact Hc.
    unfold opens_value in Hc.
    destruct (Ascii.eqb_spec c "]") as [->|Hne]; [discriminate Hc|].
    destruct c as [[] [] [] [] [] [] [] []]; try reflexivity.
    now contradiction Hne.
  - cbn [encode well_formed size] in *. norm_append.
    apply andb_true_iff in Hwf as [Hkeys Hwf].
    assert (Forall (fun kv => scans (snd kv)) members) as Hall.
    { apply List.Forall_forall. intros x Hx. rewrite List.Forall_forall in IH.
      apply IH; [exact Hx|]. rewrite forallb_forall in Hwf. now apply Hwf. }
    destruct members as [|[k x] r]; [reflexivity|].
    pose proof (scan_members_encode ((k, x) :: r) Hall ltac:(discriminate) fuel rest
                  ltac:(unfold members_weight; lia)) as Hs.
    change (map (fun kv : string * json => quote (fst kv) ++ ": " ++ encode (snd kv))
              ((k, x) :: r))
      with (map member_text ((k, x) :: r)).
    cbn [scan_value skip_ws]. change (is_ws "{") with false. cbv iota.
    change (Ascii.eqb "{" "n") with false. change (Ascii.eqb "{" "t") with false.
    change (Ascii.eqb "{" "f") with false.
    change (Ascii.eqb "{" dquote) with false.
    change (Ascii.eqb "{" "[") with false.
    change (Ascii.eqb "{" "{") with true. cbv iota.
    rewrite Hs, dict_of_pairs_distinct by exact Hkeys.
    assert (exists t', join_items (map member_text ((k, x) :: r)) ++ String "}" rest
                       = String dquote t') as (t' & Et).
    { destruct r as [|y r]; cbn [map join_items]; unfold member_text, quote;
        norm_append; eexists; reflexivity. }
    rewrite Et. reflexivity.
Qed.

Lemma print_int_length (z : Z) : (1 <= String.length (print_int z))%nat.
Proof.
  destruct (print_int_head z) as (c & r & E & _). rewrite E. cbn. lia.
Qed.

Lemma items_weight_length (items : list json) :
  Forall (fun v => (size v <= String.length (encode v))%nat) items ->
  (items_weight items <= S (String.length (join_items (map encode items))))%nat.
Proof.
  induction 1 as [|x r Hx Hr IH]; [cbn; lia|].
  rewrite items_weight_cons. destruct r as [|y r].
  - cbn [map join_items]. cbn. lia.
  - change (join_items (map encode (x :: y :: r)))
      with (encode x ++ ", " ++ join_items (map encode (y :: r))).
    rewrite !length_append. cbn [String.length]. lia.
Qed.

Lemma members_weight_length (members : list (string * json)) :
  Forall (fun kv => (size (snd kv) <= String.length (encode (snd kv)))%nat) members ->
  (members_weight members
   <= S (String.length (join_items (map member_text members))))%nat.
Proof.
  induction 1 as [|[k x] r Hx Hr IH]; [cbn; lia|].
  rewrite members_weight_cons. cbn [snd] in *.
  assert (size x <= String.length (member_text (k, x)))%nat as Hm.
  { unfold member_text. rewrite !length_append. cbn [snd]. lia. }
  destruct r as [|y r].
  - cbn [map join_items]. cbn [members_weight map list_sum]. cbn. lia.
  - change (join_items (map member_text ((k, x) :: y :: r)))
      with (member_text (k, x) ++ ", " ++ join_items (map member_text (y :: r))).
    rewrite !length_append. cbn [String.length]. lia.
Qed.

Lemma size_length (v : json) : (size v <= String.length (encode v))%nat.
Proof.
  induction v as [| b | z | s | items IH | members IH] using json_induction.
  - cbn. lia.
  - destruct b; cbn; lia.
  - cbn [size encode]. apply print_int_length.
  - cbn [size encode]. unfold quote. cbn [String.length]. lia.
  - cbn [size encode]. pose proof (items_weight_length items IH) as H.
    rewrite !length_append. cbn [String.length]. unfold items_weight in H. lia.
  - cbn [size encode]. pose proof (members_weight_length members IH) as H.
    rewrite !length_append. cbn [String.length].
    unfold members_weight, member_text in H. lia.
Qed.

(** The text codec honours the guarantee of the library. *)
Lemma json_text_decodes_encoded : decodes_encoded json_text.
Proof.
  intros v Hwf. cbn in *. unfold decode.
  pose proof (size_length v) as Hl.
  rewrite <- (append_nil_r (encode v)) at 2.
  rewrite (scan_value_encode v Hwf) by (first [lia | reflexivity]).
  reflexivity.
Qed.

End JsonRoundTrip.

(** ** The file system *)

Section FsFacts.
Import Fs.

Lemma is_dir_store (st : fs) (q p : location) (text : string) :
  is_dir st q = false -> is_dir (store st q text) p = is_dir st p.
Proof.
  intros Hq. destruct p as [|c p]; [reflexivity|].
  unfold is_dir, store in *; cbn [nodes].
  destruct (decide (q = c :: p)) as [->|Hne].
  - rewrite lookup_insert_eq. destruct (nodes st !! (c :: p)) as [[]|]; congruence.
  - rewrite lookup_insert_ne by exact Hne. reflexivity.
Qed.

(** Writing a file changes no directory: a path that resolved still
    resolves, to the same place. *)
Lemma walk_store (st : fs) (q : location) (text : string) (comps : list string) :
  is_dir st q = false ->
  forall cur q', walk st cur comps = Ok q' ->
                 walk (store st q text) cur comps = Ok q'.
Proof.
  intros Hq. induction comps as [|c comps IH]; intros cur q' H; [exact H|].
  cbn [walk] in *. rewrite is_dir_store by exact Hq.
  destruct (is_dir st cur).
  - destruct (name_fits c); [now apply IH | discriminate].
  - destruct (present st cur); discriminate.
Qed.

Lemma resolve_store (st : fs) (q : location) (text : string) (p : PurePath) (q' : location) :
  is_dir st q = false ->
  resolve st p = Ok q' -> resolve (store st q text) p = Ok q'.
Proof.
  intros Hq H. unfold resolve in *. destruct (refused p); [discriminate|].
  now apply walk_store.
Qed.

Lemma walk_store_back (st : fs) (q : location) (text : string) (comps : list string) :
  is_dir st q = false ->
  forall cur q', walk (store st q text) cur comps = Ok q' ->
                 walk st cur comps = Ok q'.
Proof.
  intros Hq. induction comps as [|c comps IH]; intros cur q' H; [exact H|].
  cbn [walk] in *. rewrite is_dir_store in H by exact Hq.
  destruct (is_dir st cur).
  - destruct (name_fits c); [now apply IH | discriminate].
  - destruct (present _ cur); discriminate.
Qed.

Lemma resolve_store_back (st : fs) (q : location) (text : string) (p : PurePath) (q' : location) :
  is_dir st q = false ->
  resolve (store st q text) p = Ok q' -> resolve st p = Ok q'.
Proof.
  intros Hq H. unfold resolve in *. destruct (refused p); [discriminate|].
  now apply walk_store_back in H.
Qed.

(** Writing a file turns no failing resolution into a successful one; the
    error stays the same, unless the new file now stands where an entry was
    missing. *)
Lemma walk_store_raise (st : fs) (q : location) (text : string) (comps : list string) :
  is_dir st q = false ->
  forall cur e, walk st cur comps = Raise e ->
    exists e', walk (store st q text) cur comps = Raise e'
               /\ (e' = e \/ (e = FileNotFoundError /\ e' = NotADirectoryError)).
Proof.
  intros Hq. induction comps as [|c comps IH]; intros cur e H; [discriminate|].
  cbn [walk] in *. rewrite is_dir_store by exact Hq.
  destruct (is_dir st cur).
  - destruct (name_fits c); [now apply IH | exists e; auto].
  - destruct (present st cur) eqn:Hp.
    + injection H as <-. destruct (decide (cur = q)) as [->|Hne].
      * exists NotADirectoryError. split; [|now left].
        unfold present, store; cbn [nodes]. destruct q; [reflexivity|].
        now rewrite lookup_insert_eq.
      * exists NotADirectoryError. split; [|now left].
        unfold present, store in *; cbn [nodes]. destruct cur; [reflexivity|].
        rewrite lookup_insert_ne by congruence. now rewrite Hp.
    + injection H as <-.
      destruct (present (store st q text) cur); eexists; split; eauto.
Qed.

Lemma resolve_store_raise (st : fs) (q : location) (text : string) (p : PurePath) (e : exn) :
  is_dir st q = false ->
  resolve st p = Raise e ->
  exists e', resolve (store st q text) p = Raise e'
             /\ (e' = e \/ (e = FileNotFoundError /\ e' = NotADirectoryError)).
Proof.
  intros Hq H. unfold resolve in *. destruct (refused p) as [e0|].
  - injection H as <-. exists e0. auto.
  - now apply walk_store_raise.
Qed.

(** What is present elsewhere stays as it is. *)
Lemma present_store (st : fs) (q p : location) (text : string) :
  p <> q -> present (store st q text) p = present st p.
Proof.
  intros Hne. unfold present, store; cbn [nodes]. destruct p as [|c p];
    [reflexivity|]. now rewrite lookup_insert_ne by congruence.
Qed.

(** Writing a file at a place a path does not lead to changes nothing in
    what [Path.exists] answers for the path. *)
Lemma path_exists_store_elsewhere (st : fs) (q : location) (text : string) (p : PurePath) :
  is_dir st q = false ->
  resolve st p <> Ok q ->
  path_exists (store st q text) p = path_exists st p.
Proof.
  intros Hq Hne. unfold path_exists.
  destruct (resolve st p) as [q'|e] eqn:E.
  - rewrite (resolve_store _ _ _ _ _ Hq E).
    now rewrite present_store by congruence.
  - destruct (resolve_store_raise _ _ text _ _ Hq E) as (e' & -> & [->|[-> ->]]);
      reflexivity.
Qed.

Lemma path_exists_store (st : fs) (q : location) (text : string) (p : PurePath) :
  is_dir st q = false ->
  resolve st p <> Ok q ->
  path_exists st p = Ok false ->
  path_exists (store st q text) p = Ok false.
Proof. intros Hq Hne <-. now apply path_exists_store_elsewhere. Qed.

(** Nor in what [open] reads there. *)
Lemma read_text_store_elsewhere (st : fs) (q q' : location) (text : string) (p : PurePath) :
  is_dir st q = false ->
  resolve st p = Ok q' -> q' <> q ->
  read_text (store st q text) p = read_text st p.
Proof.
  intros Hq E Hne. unfold read_text.
  rewrite (resolve_store _ _ _ _ _ Hq E), E, is_dir_store by exact Hq.
  unfold store; cbn [nodes]. now rewrite lookup_insert_ne by congruence.
Qed.

Lemma store_store (st : fs) (q : location) (a b : string) :
  store (store st q a) q b = store st q b.
Proof. unfold store; cbn [cwd nodes]. f_equal. apply insert_insert_eq. Qed.

Lemma not_dir_not_root (st : fs) (q : location) : is_dir st q = false -> q <> [].
Proof. intros H ->. discriminate. Qed.

Lemma lookup_store (st : fs) (q : location) (text : string) :
  nodes (store st q text) !! q = Some (File text).
Proof. apply lookup_insert_eq. Qed.

Lemma append_text_store (st : fs) (q : location) (a b : string) :
  append_text (store st q a) q b = store st q (a ++ b).
Proof. unfold append_text. rewrite lookup_store. apply store_store. Qed.

(** A stored text is found and read back under the same path. *)
Lemma read_stored (st : fs) (p : PurePath) (q : location) (text : string) :
  resolve st p = Ok q -> is_dir st q = false ->
  path_exists (store st q text) p = Ok true
  /\ read_text (store st q text) p = Ok text.
Proof.
  intros Hr Hq. pose proof (resolve_store st q text p q Hq Hr) as Hr'.
  pose proof (not_dir_not_root st q Hq) as Hne.
  unfold path_exists, read_text. rewrite Hr', is_dir_store, Hq by exact Hq.
  split.
  - unfold present. destruct q; [congruence|]. now rewrite lookup_store.
  - now rewrite lookup_store.
Qed.

(** A path that [open] reads is a path that exists. *)
Lemma read_text_exists (st : fs) (p : PurePath) (content : string) :
  read_text st p = Ok content -> path_exists st p = Ok true.
Proof.
  unfold read_text, path_exists. destruct (resolve st p) as [q|e]; [|discriminate].
  destruct (is_dir st q) eqn:Hq; [discriminate|].
  destruct (nodes st !! q) as [[|text]|] eqn:Hn; try discriminate.
  intros _. unfold present. destruct q; [reflexivity|]. now rewrite Hn.
Qed.

End FsFacts.

(** ** The response cache *)

Section CacheFacts.
Context {Doc : Type} {C : JsonCodec Doc}.

(** Opening a path for writing and writing a text: when it succeeds, the
    path resolved to a place that is no directory, and the file there now
    holds the text; nothing else changed. *)
Lemma save_text_done (p : Fs.PurePath) (text : string) (w w' : world) :
  (f ← open_write p; write f text) w = (Ok tt, w') ->
  exists q, Fs.resolve (files w) p = Ok q
            /\ Fs.is_dir (files w) q = false
            /\ w' = with_files w (Fs.store (files w) q text).
Proof.
  unfold mbind, M_bind, open_write, write, Fs.open_write.
  destruct (Fs.resolve (files w) p) as [q|e]; [|discriminate].
  destruct (Fs.is_dir (files w) q) eqn:Hq; [discriminate|].
  intros H. exists q. split; [reflexivity|]. split; [exact Hq|].
  injection H as <-. unfold with_files; cbn [files transport sent].
  rewrite append_text_store. reflexivity.
Qed.

(** The outcome of opening a path for writing and writing a text. *)
Lemma save_text_outcome (p : Fs.PurePath) (text : string) (w : world) :
  (f ← open_write p; write f text) w
  = match Fs.resolve (files w) p with
    | Ok q =>
        if Fs.is_dir (files w) q then (Raise IsADirectoryError, w)
        else (Ok tt, with_files w (Fs.store (files w) q text))
    | Raise e => (Raise e, w)
    end.
Proof.
  unfold mbind, M_bind, open_write, write, Fs.open_write.
  destruct (Fs.resolve (files w) p) as [q|e]; [|reflexivity].
  destruct (Fs.is_dir (files w) q); [reflexivity|].
  unfold with_files; cbn [files transport sent].
  now rewrite append_text_store.
Qed.

Lemma load_hit (body text : string) (d : Doc) (w : world) :
  Fs.path_exists (files w) (cached_file body) = Ok true ->
  Fs.read_text (files w) (cached_file body) = Ok text ->
  loads text = Some d ->
  _load_file_from_cache body w = (Ok (Some d), w).
Proof.
  intros He Hr Hl. unfold _load_file_from_cache, mbind, M_bind, path_exists,
    read_text, json_load. rewrite He, Hr, Hl. reflexivity.
Qed.

Lemma load_miss (body : string) (w : world) :
  Fs.path_exists (files w) (cached_file body) = Ok false ->
  _load_file_from_cache body w = (Ok None, w).
Proof.
  intros He. unfold _load_file_from_cache, mbind, M_bind, path_exists.
  rewrite He. reflexivity.
Qed.

Lemma load_undecodable (body text : string) (w : world) :
  Fs.path_exists (files w) (cached_file body) = Ok true ->
  Fs.read_text (files w) (cached_file body) = Ok text ->
  loads text = None ->
  _load_file_from_cache body w
  = (Raise (if decodes_as_text text then JSONDecodeError else UnicodeDecodeError),
     w).
Proof.
  intros He Hr Hl. unfold _load_file_from_cache, mbind, M_bind, path_exists,
    read_text, json_load. rewrite He, Hr, Hl.
  destruct (decodes_as_text text); reflexivity.
Qed.

Lemma substring_all (s : string) : substring 0 (String.length s) s = s.
Proof.
  induction s as [|c s IH]; [reflexivity|]. cbn [String.length substring].
  now rewrite IH.
Qed.

Lemma substring_beyond (s : string) (n : nat) :
  (String.length s <= n)%nat -> substring 0 n s = s.
Proof.
  revert n. induction s as [|c s IH]; intros n Hn.
  - destruct n; reflexivity.
  - destruct n as [|n]; [cbn in Hn; lia|]. cbn [substring].
    rewrite IH by (cbn in Hn; lia). reflexivity.
Qed.

(** A save that runs to its end is a save interrupted after the last
    character. *)
Lemma save_is_last_interruption (body : string) (data : Doc) :
  _save_to_cache body data
  = interrupted_save (String.length (dumps data)) body data.
Proof. unfold _save_to_cache, interrupted_save. now rewrite substring_all. Qed.

End CacheFacts.

(** * Properties of the specification *)

(** ** The date range generator *)

(** C1. For valid calendar dates with start not after end, given in the
    form YYYY-MM-DD, iterating the generator yields the texts of [days], as
    [strftime] prints them: as many as the days from start to end
    inclusive, the one at position [k] being the date [k] days after start,
    so each is one day after the previous; no text occurs twice and every
    day of the range occurs.  From the year 1000 on the texts are in the
    form YYYY-MM-DD; before, the year comes without leading zeros.  The
    iteration is finite and ends after the last day. *)
Theorem daily_dates_cover_range {P : IsoParser} (start_date end_date : date) :
  parses_dates P ->
  valid_date start_date = true -> valid_date end_date = true ->
  date_leb start_date end_date = true ->
  let span := toordinal end_date - toordinal start_date in
  let run :=
    drain (S (S (Z.to_nat span)))
      (_generate_daily_date_strings (isoformat start_date) (isoformat end_date)) in
  exists days : list date,
    fst run = map strftime_date days
    /\ snd run = ending_after end_date
    /\ Z.of_nat (length days) = span + 1
    /\ (forall (k : nat) (d : date),
          days !! k = Some d ->
          valid_date d = true /\ toordinal d = toordinal start_date + Z.of_nat k)
    /\ NoDup (fst run)
    /\ (forall d : date,
          valid_date d = true ->
          date_leb start_date d = true -> date_leb d end_date = true ->
          In (strftime_date d) (fst run))
    /\ (1000 <= year start_date -> fst run = map isoformat days).
Proof.
  intros HP Hs He Hle span run.
  pose proof (proj1 (toordinal_leb _ _ Hs He) Hle) as Ho.
  pose proof (toordinal_upper end_date He) as Hu.
  exists (days_from start_date (Z.to_nat span)).
  assert (run = (map strftime_date (days_from start_date (Z.to_nat span)),
                 ending_after end_date)) as ->
    by (apply drain_range; assumption).
  cbn [fst snd]. repeat split.
  - rewrite days_from_length by (subst span; auto; lia). subst span. lia.
  - now apply days_from_lookup in H.
  - now apply days_from_lookup in H.
  - apply NoDup_fmap_2_strong; [|now apply days_from_NoDup].
    intros a b Ha Hb E. apply list_elem_of_In in Ha, Hb.
    apply strftime_date_inj; eauto using days_from_valid.
  - intros d Hd Hsd Hde. apply in_map. apply days_from_covers; auto.
    apply toordinal_leb in Hsd, Hde; auto. subst span. lia.
  - intros Hy. apply map_ext_in. intros d Hd. apply strftime_date_isoformat.
    apply days_from_year in Hd. lia.
Qed.

Lemma daily_dates_cover_range_witness :
  fst (drain (P := iso_text) 6
         (_generate_daily_date_strings "2024-02-27" "2024-03-02"))
  = ["2024-02-27"; "2024-02-28"; "2024-02-29"; "2024-03-01"; "2024-03-02"]
  /\ fst (drain (P := iso_text) 4
            (_generate_daily_date_strings "0999-12-30" "1000-01-01"))
     = ["999-12-30"; "999-12-31"; "1000-01-01"].
Proof.
  destruct (daily_dates_cover_range (P := iso_text)
              (Date 2024 2 27) (Date 2024 3 2)
              iso_text_parses_dates eq_refl eq_refl eq_refl)
    as (days & Hrun & _).
  destruct (daily_dates_cover_range (P := iso_text)
              (Date 999 12 30) (Date 1000 1 1)
              iso_text_parses_dates eq_refl eq_refl eq_refl)
    as (early & Hearly & _).
  split; reflexivity.
Defined.

(** C7. For valid calendar dates with start strictly after end, the first
    resumption of the generator raises the error of an inverted range; the
    loop is never entered and no date is yielded, however long the consumer
    iterates. *)
Theorem inverted_range_raises {P : IsoParser} (start_date end_date : date) :
  parses_dates P ->
  valid_date start_date = true -> valid_date end_date = true ->
  date_ltb end_date start_date = true ->
  let g := _generate_daily_date_strings (isoformat start_date) (isoformat end_date) in
  let error :=
    ValueError (inverted_message (isoformat start_date) (isoformat end_date)) in
  next g = (Raised error, Closed)
  /\ forall fuel : nat, drain (S fuel) g = ([], Failed error).
Proof.
  intros HP Hs He Hlt g error.
  assert (next g = (Raised error, Closed)) as Hn.
  { subst g error. unfold _generate_daily_date_strings. cbn [next].
    rewrite (HP _ Hs), (HP _ He), datetime_ltb_midnight, Hlt. reflexivity. }
  split; [exact Hn|]. intros fuel. rewrite drain_S, Hn. reflexivity.
Qed.

Lemma inverted_range_raises_witness :
  drain (P := iso_text) 4 (_generate_daily_date_strings "2024-03-01" "2024-01-02")
  = ([], Failed (ValueError "Start date 2024-03-01 is after end date 2024-01-02")).
Proof.
  exact (proj2 (inverted_range_raises (P := iso_text)
                  (Date 2024 3 1) (Date 2024 1 2)
                  iso_text_parses_dates eq_refl eq_refl eq_refl) 3%nat).
Defined.

(** C8, as stated, fails: a text with a time of day is no calendar date in
    the YYYY-MM-DD form, yet the parser accepts it and the generator yields
    a date instead of raising. *)
Lemma time_of_day_text_is_accepted :
  well_formed_calendar_date "2024-01-01T12:30" = false
  /\ drain (P := iso_text) 3
       (_generate_daily_date_strings "2024-01-01T12:30" "2024-01-02")
     = (["2024-01-01"], Exhausted).
Proof. split; reflexivity. Qed.

(** C8, amended. Whenever [datetime.fromisoformat] rejects the start or the
    end text, the first resumption of the generator raises the error of an
    invalid format, and no date is yielded. *)
Theorem unparsed_input_raises {P : IsoParser} (start_date_string end_date_string : string) :
  fromisoformat start_date_string = None \/ fromisoformat end_date_string = None ->
  let g := _generate_daily_date_strings start_date_string end_date_string in
  let error :=
    ValueError (invalid_format_message start_date_string end_date_string) in
  next g = (Raised error, Closed)
  /\ forall fuel : nat, drain (S fuel) g = ([], Failed error).
Proof.
  intros H g error.
  assert (next g = (Raised error, Closed)) as Hn.
  { subst g error. unfold _generate_daily_date_strings. cbn [next].
    destruct H as [-> | H]; [reflexivity|].
    rewrite H. now destruct (fromisoformat start_date_string). }
  split; [exact Hn|]. intros fuel. rewrite drain_S, Hn. reflexivity.
Qed.

Lemma unparsed_input_raises_witness :
  drain (P := iso_text) 2 (_generate_daily_date_strings "2024-02-30" "2024-03-02")
  = ([], Failed (ValueError
                   "Invalid date format. Expected 'YYYY-MM-DD', got start='2024-02-30', end='2024-03-02'")).
Proof.
  exact (proj2 (unparsed_input_raises (P := iso_text) "2024-02-30" "2024-03-02"
                  (or_introl eq_refl)) 1%nat).
Defined.

(** ** The response cache *)




(** C9, as stated, fails: no save was ever made under the key [fixtures],
    yet the load returns a document, the one saved under [./fixtures], which
    names the same file; and under a key of 300 characters, never saved
    either, the load raises: the name of the file is longer than the file
    system allows and [Path.exists] does not answer. *)
Lemma unsaved_key_is_found_or_raises :
  fst ((_save_to_cache (C := json_text) "./fixtures" fixtures_document;;
        _load_file_from_cache "fixtures") fresh_world)
  = Ok (Some fixtures_document)
  /\ fst (_load_file_from_cache (C := json_text) long_key fresh_world)
     = Raise (OSError ENAMETOOLONG).
Proof. split; vm_compute; reflexivity. Qed.

(** C9, amended. Take a key whose path shows nothing to begin with, and any
    sequence of saves, completed or not, under keys none of which leads to
    the file of the key.  Then a load under the key returns the absent
    result: it raises nothing and changes nothing. *)
Theorem unsaved_key_is_absent {Doc : Type} (C : JsonCodec Doc)
    (body : string) (saves : list (string * Doc)) (w : world) :
  Fs.path_exists (files w) (cached_file body) = Ok false ->
  (forall (other : string) (data : Doc) (q : Fs.location),
      In (other, data) saves ->
      Fs.resolve (files w) (cached_file other) = Ok q ->
      Fs.resolve (files w) (cached_file body) <> Ok q) ->
  _load_file_from_cache body (after_saves saves w)
  = (Ok None, after_saves saves w).
Proof.
  intros Habs Hne. apply load_miss. revert w Habs Hne.
  induction saves as [|[other data] saves IH]; intros w Habs Hne; [exact Habs|].
  cbn [after_saves fold_left fst snd].
  change (fold_left _ saves ?w') with (after_saves saves w').
  unfold _save_to_cache. rewrite save_text_outcome.
  destruct (Fs.resolve (files w) (cached_file other)) as [q|e] eqn:Hr.
  - destruct (Fs.is_dir (files w) q) eqn:Hq; cbn [snd].
    + apply IH; [exact Habs|]. intros o d q' Hin. apply (Hne o d). now right.
    + apply IH; cbn [files with_files].
      * apply path_exists_store; [exact Hq | | exact Habs].
        apply (Hne other data q); [now left | exact Hr].
      * intros o d q' Hin Ho Hb. apply resolve_store_back in Ho, Hb; try exact Hq.
        apply (Hne o d q'); [now right | exact Ho | exact Hb].
  - cbn [snd]. apply IH; [exact Habs|]. intros o d q' Hin. apply (Hne o d).
    now right.
Qed.

Lemma unsaved_key_is_absent_witness :
  let saves := [("races", refreshed_document); (fixture_list_url, fixtures_document)] in
  _load_file_from_cache (C := json_text) "fixtures" (after_saves saves fresh_world)
  = (Ok None, after_saves saves fresh_world).
Proof.
  intros saves.
  apply (unsaved_key_is_absent json_text "fixtures" saves fresh_world).
  - reflexivity.
  - intros other data q [E|[E|[]]] Ho Hb; injection E as <- <-;
      vm_compute in Ho, Hb; congruence.
Defined.







(** An interrupted or failed save elsewhere does not make a file appear:
    a path that shows nothing keeps showing nothing through every save that
    resolves to another place. *)
Lemma save_elsewhere_keeps_absence {Doc : Type} (C : JsonCodec Doc)
    (written : nat) (body other : string) (data : Doc) (w w' : world) (r : res unit) :
  Fs.path_exists (files w) (cached_file body) = Ok false ->
  (forall q, Fs.resolve (files w) (cached_file other) = Ok q ->
             Fs.resolve (files w) (cached_file body) <> Ok q) ->
  interrupted_save written other data w = (r, w') ->
  Fs.path_exists (files w') (cached_file body) = Ok false.
Proof.
  intros Habs Hne Hs. unfold interrupted_save in Hs.
  rewrite save_text_outcome in Hs.
  destruct (Fs.resolve (files w) (cached_file other)) as [q|e] eqn:Hr;
    [|now injection Hs as _ <-].
  destruct (Fs.is_dir (files w) q) eqn:Hq; injection Hs as _ <-; [exact Habs|].
  cbn [files with_files]. apply path_exists_store; auto.
Qed.

(** ** The fetch entry point *)

(** C3, as stated, fails: with a server that answers 401 the call raises
    nothing and the transport carries no request; it returns [None]. *)
Lemma unauthorised_fetch_neither_calls_nor_fails :
  status (transport fresh_world
            {| req_url := fixture_list_url; req_token := "expired" |}) = 401
  /\ _fetch_json_payload (Doc := Json.json) fixture_list_url "expired" fresh_world
     = (Ok None, fresh_world)
  /\ sent fresh_world = [].
Proof. repeat split; reflexivity. Qed.

(** C3, amended. For every request, when the server would answer 401 or
    403, the call returns [None] without raising; the transport carries no
    request at all, hence none is repeated, and nothing changes. *)
Theorem rejected_fetch_sends_nothing {Doc : Type} (url token : string) (w : world) :
  status (transport w {| req_url := url; req_token := token |}) = 401
  \/ status (transport w {| req_url := url; req_token := token |}) = 403 ->
  exists w' : world,
    _fetch_json_payload (Doc := Doc) url token w = (Ok None, w')
    /\ sent w' = sent w /\ w' = w.
Proof. intros _. exists w. repeat split. Qed.

Lemma rejected_fetch_sends_nothing_witness :
  exists w' : world,
    _fetch_json_payload (Doc := Json.json) fixture_list_url "expired" fresh_world
    = (Ok None, w')
    /\ sent w' = sent fresh_world /\ w' = fresh_world.
Proof.
  apply (rejected_fetch_sends_nothing (Doc := Json.json) fixture_list_url "expired"
           fresh_world).
  left. reflexivity.
Defined.

(** C4, as stated, fails: the cache holds a document under the key, the
    load returns it, and the fetch returns [None] all the same. *)
Lemma fetch_ignores_cached_document :
  _load_file_from_cache (C := json_text) "fixtures" cached_world
  = (Ok (Some fixtures_document), cached_world)
  /\ _fetch_json_payload (Doc := Json.json) "fixtures" "token" cached_world
     = (Ok None, cached_world).
Proof. split; reflexivity. Qed.

(** C4, amended. For every request whose key has an entry in the cache, the
    fetch makes no network call; it does not consult the cache and returns
    [None], not the cached document. *)
Theorem cached_fetch_sends_nothing {Doc : Type} (C : JsonCodec Doc)
    (url token body : string) (cached : Doc) (w : world) :
  _load_file_from_cache body w = (Ok (Some cached), w) ->
  exists w' : world,
    _fetch_json_payload (Doc := Doc) url token w = (Ok None, w')
    /\ sent w' = sent w /\ files w' = files w.
Proof. intros _. exists w. repeat split. Qed.

Lemma cached_fetch_sends_nothing_witness :
  exists w' : world,
    _fetch_json_payload (Doc := Json.json) "fixtures" "token" cached_world
    = (Ok None, w')
    /\ sent w' = sent cached_world /\ files w' = files cached_world.
Proof.
  apply (cached_fetch_sends_nothing json_text "fixtures" "token" "fixtures"
           fixtures_document cached_world).
  reflexivity.
Defined.

(** ** Token capture *)

Section CaptureFacts.
Import Capture.

(** Header extraction returns nothing, so a handler without a token stays
    without one. *)
Lemma handle_request_stores_nothing (self : TokenCapture) (r : request) :
  handle_request self r = self.
Proof.
  unfold handle_request.
  destruct (truthy (captured_token self)); [reflexivity|].
  destruct (negb (truthy (_get_request_url self r))
            || negb (contains (default EmptyString (_get_request_url self r))
                       (target_domain self))); reflexivity.
Qed.

Lemma observe_stores_nothing (session : list request) (self : TokenCapture) :
  observe self session = self.
Proof.
  unfold observe. revert self.
  induction session as [|r session IH]; intros self; [reflexivity|].
  cbn [fold_left]. now rewrite handle_request_stores_nothing.
Qed.

End CaptureFacts.

(** C5 does not hold of the code: in a session whose third request is the
    first to the API domain with a bearer token, the handler ends with no
    token, and the acquisition raises. *)
Theorem capture_misses_first_bearer_request :
  Capture.get_token
    (Capture.observe (Capture.init api_domain) browser_session) = None
  /\ Capture._fetch_token_via_playwright browser_session api_domain
     = Raise (PlainException "Failed to capture token").
Proof. split; reflexivity. Qed.

(** * Further properties of the code *)

(** ** Ranges between two instants *)

Section RangeFacts.
Context {P : IsoParser}.

Lemma date_ltb_ordinal (a b : date) :
  valid_date a = true -> valid_date b = true ->
  (date_ltb a b = true <-> toordinal a < toordinal b).
Proof.
  intros Ha Hb. split; [now apply toordinal_ltb|].
  intros H. destruct (date_trichotomy a b) as [Hl|[->|Hg]]; [exact Hl|lia|].
  apply toordinal_ltb in Hg; auto. lia.
Qed.

Lemma date_eqb_ordinal (a b : date) :
  valid_date a = true -> valid_date b = true ->
  (date_eqb a b = true <-> toordinal a = toordinal b).
Proof.
  intros Ha Hb. rewrite date_eqb_eq. split; [now intros ->|].
  now apply toordinal_inj.
Qed.

Lemma datetime_leb_negb (a b : datetime) :
  datetime_leb a b = negb (datetime_ltb b a).
Proof.
  destruct a as [[ya ma da] ta], b as [[yb mb db] tb].
  unfold datetime_leb, datetime_ltb, date_ltb, date_eqb;
    cbn [dt_date dt_time year month day]. lia.
Qed.

(** The loop test, by ordinals. *)
Lemma datetime_leb_ordinal (a b : datetime) :
  valid_date (dt_date a) = true -> valid_date (dt_date b) = true ->
  (datetime_leb a b = true
   <-> toordinal (dt_date a)
       <= toordinal (dt_date b) - (if dt_time b <? dt_time a then 1 else 0)).
Proof.
  intros Ha Hb. unfold datetime_leb.
  pose proof (date_ltb_ordinal _ _ Ha Hb) as Hl.
  pose proof (date_eqb_ordinal _ _ Ha Hb) as He.
  destruct (date_ltb (dt_date a) (dt_date b)),
    (date_eqb (dt_date a) (dt_date b)),
    (Z.ltb_spec (dt_time b) (dt_time a)), (Z.leb_spec (dt_time a) (dt_time b));
    cbn [orb andb]; intuition lia.
Qed.

Lemma add_one_day_date (dt : datetime) :
  add_one_day dt
  = match date_succ (dt_date dt) with
    | Some d => Some (DateTime d (dt_time dt))
    | None => None
    end.
Proof. reflexivity. Qed.

(** Resuming after the day [current] was yielded, the start having the time
    of day [time]. *)
Lemma drain_suspended_between (n : nat) :
  forall (current : date) (time : Z) (range_end : datetime),
    valid_date current = true -> valid_date (dt_date range_end) = true ->
    toordinal current + Z.of_nat n
    = toordinal (dt_date range_end) - (if dt_time range_end <? time then 1 else 0) ->
    drain (S n) (Suspended (DateTime current time) range_end)
    = (map strftime_date (tl (days_from current n)),
       ending_between (DateTime current time) range_end).
Proof.
  induction n as [|n IH]; intros current time range_end Hc He Hn.
  - rewrite drain_S. cbn [next days_from tl map]. rewrite add_one_day_date.
    cbn [dt_date dt_time]. pose proof (date_succ_spec current Hc) as Hs.
    pose proof (toordinal_upper (dt_date range_end) He) as Hu.
    unfold ending_between. cbn [dt_date dt_time].
    destruct (date_succ current) as [d'|].
    + destruct Hs as [Hv Ho]. unfold loop.
      assert (datetime_leb (DateTime d' time) range_end = false) as ->.
      { destruct (datetime_leb (DateTime d' time) range_end) eqn:E; [|reflexivity].
        apply datetime_leb_ordinal in E; auto. cbn [dt_date dt_time] in E. lia. }
      pose proof (toordinal_upper d' Hv) as Hu'.
      destruct (date_eqb (dt_date range_end) date_max) eqn:Em; [|reflexivity].
      destruct (Z.leb_spec time (dt_time range_end)); [|reflexivity].
      apply date_eqb_eq in Em. rewrite Em in *.
      destruct (Z.ltb_spec (dt_time range_end) time); lia.
    + subst current.
      assert (dt_date range_end = date_max) as ->.
      { apply toordinal_inj; auto.
        destruct (Z.ltb_spec (dt_time range_end) time); lia. }
      destruct (Z.ltb_spec (dt_time range_end) time) as [Hlt|Hge]; [lia|].
      cbn. destruct (Z.leb_spec time (dt_time range_end)); [reflexivity|lia].
  - rewrite drain_S. cbn [next days_from]. rewrite add_one_day_date.
    cbn [dt_date dt_time]. pose proof (date_succ_spec current Hc) as Hs.
    pose proof (toordinal_upper (dt_date range_end) He) as Hu.
    destruct (date_succ current) as [d'|].
    + destruct Hs as [Hv Ho]. unfold loop.
      assert (datetime_leb (DateTime d' time) range_end = true) as ->.
      { apply datetime_leb_ordinal; auto. cbn [dt_date dt_time]. lia. }
      rewrite (IH d' time range_end) by (auto; lia).
      cbn [tl strftime_ymd dt_date]. rewrite (days_from_head d' n) at 2.
      unfold ending_between. reflexivity.
    + subst current. destruct (Z.ltb_spec (dt_time range_end) time); lia.
Qed.

Lemma days_after_start_nonneg (a b : datetime) :
  valid_date (dt_date a) = true -> valid_date (dt_date b) = true ->
  datetime_ltb b a = false -> 0 <= days_after_start a b.
Proof.
  intros Ha Hb Hn. assert (datetime_leb a b = true) as Hle
    by (rewrite datetime_leb_negb, Hn; reflexivity).
  apply datetime_leb_ordinal in Hle; auto. unfold days_after_start. lia.
Qed.

Lemma drain_between (start_date_string end_date_string : string)
    (range_start range_end : datetime) :
  fromisoformat start_date_string = Some range_start ->
  fromisoformat end_date_string = Some range_end ->
  valid_date (dt_date range_start) = true ->
  valid_date (dt_date range_end) = true ->
  datetime_ltb range_end range_start = false ->
  let n := Z.to_nat (days_after_start range_start range_end) in
  drain (S (S n)) (_generate_daily_date_strings start_date_string end_date_string)
  = (map strftime_date (days_from (dt_date range_start) n),
     ending_between range_start range_end).
Proof.
  intros Hs He Va Vb Hn n.
  pose proof (days_after_start_nonneg _ _ Va Vb Hn) as H0.
  unfold _generate_daily_date_strings. rewrite drain_S. cbn [next].
  rewrite Hs, He, Hn. unfold loop.
  rewrite datetime_leb_negb, Hn. cbn [negb].
  destruct range_start as [d1 t1]. cbn [dt_date dt_time] in *.
  rewrite drain_suspended_between
    by (auto; unfold days_after_start in *; cbn [dt_date dt_time] in *; lia).
  cbn [strftime_ymd dt_date]. rewrite (days_from_head d1 n) at 2. reflexivity.
Qed.

Lemma well_formed_isoformat (d : date) :
  valid_date d = true -> well_formed_calendar_date (isoformat d) = true.
Proof.
  intros Hv. unfold well_formed_calendar_date.
  rewrite <- (append_nil_r (isoformat d)), parse_date_isoformat by exact Hv.
  reflexivity.
Qed.

Lemma well_formed_strftime (dt : datetime) :
  valid_date (dt_date dt) = true -> 1000 <= year (dt_date dt) ->
  well_formed_calendar_date (strftime_ymd dt) = true.
Proof.
  intros Hv Hy. unfold strftime_ymd.
  rewrite strftime_date_isoformat by exact Hy. now apply well_formed_isoformat.
Qed.

Lemma next_sound (g : generator) :
  parses_valid P -> sound_state g ->
  match next g with
  | (Yield s, g') => well_formed_calendar_date s = true /\ sound_state g'
  | (_, g') => sound_state g'
  end.
Proof.
  intros HP Hg. destruct g as [s e|c r|]; cbn [next].
  - destruct (fromisoformat s) as [a|] eqn:Ea; [|exact I].
    destruct (fromisoformat e) as [b|]; [|exact I].
    destruct (datetime_ltb b a); [exact I|]. unfold loop.
    destruct (datetime_leb a b); [|exact I].
    pose proof (HP _ _ Ea) as Hv. pose proof (Hg _ Ea) as Hy.
    split; [|split; assumption]. now apply well_formed_strftime.
  - destruct Hg as [Hg Hy]. rewrite add_one_day_date.
    pose proof (date_succ_spec _ Hg) as Hs.
    destruct (date_succ (dt_date c)) as [d'|] eqn:Ed; [|exact I].
    destruct Hs as [Hv _]. apply date_succ_year in Ed. unfold loop.
    destruct (datetime_leb _ r); [|exact I].
    assert (1000 <= year d') as Hy' by lia.
    split; [|split; assumption]. now apply well_formed_strftime.
  - exact I.
Qed.

Lemma drain_well_formed (fuel : nat) :
  parses_valid P ->
  forall g, sound_state g ->
            Forall (fun s => well_formed_calendar_date s = true) (fst (drain fuel g)).
Proof.
  intros HP. induction fuel as [|fuel IH]; intros g Hg; [constructor|].
  rewrite drain_S. pose proof (next_sound g HP Hg) as Hn.
  destruct (next g) as [[s| |e] g']; try constructor.
  destruct Hn as [Hs Hg']. specialize (IH g' Hg').
  destruct (drain fuel g') as [ys en]. cbn [fst] in *. now constructor.
Qed.

End RangeFacts.

Lemma parse_date_valid (s : string) (d : date) (rest : string) :
  IsoText.parse_date s = Some (d, rest) -> valid_date d = true.
Proof.
  unfold IsoText.parse_date. intros H.
  repeat match type of H with
         | context [match ?x with _ => _ end] =>
             destruct x eqn:?; try discriminate H
         end.
  injection H as <- <-. assumption.
Qed.

(** A text of fewer than ten characters is no date. *)
Lemma parse_date_short (s : string) :
  (String.length s < 10)%nat -> IsoText.parse_date s = None.
Proof.
  intros H. unfold IsoText.parse_date.
  do 4 (destruct s as [|? s]; [reflexivity|]).
  destruct s as [|dash s]; [reflexivity|].
  destruct dash as [[] [] [] [] [] [] [] []]; try reflexivity.
  do 2 (destruct s as [|? s]; [reflexivity|]).
  destruct s as [|dash s]; [reflexivity|].
  destruct dash as [[] [] [] [] [] [] [] []]; try reflexivity.
  do 2 (destruct s as [|? s]; [reflexivity|]).
  cbn [String.length] in H. lia.
Qed.

Lemma iso_text_parses_valid : parses_valid iso_text.
Proof.
  intros s dt. cbn. unfold IsoText.parse.
  destruct (IsoText.parse_date s) as [[d rest]|] eqn:E; [|discriminate].
  apply parse_date_valid in E. destruct rest as [|sep t].
  - intros [= <-]. exact E.
  - destruct (IsoText.parse_time t); [|discriminate]. intros [= <-]. exact E.
Qed.

(** ** Outcomes of the cache operations *)

Section CacheOutcomes.
Context {Doc : Type} {C : JsonCodec Doc}.

Lemma is_dir_present (st : Fs.fs) (q : Fs.location) :
  Fs.is_dir st q = true -> Fs.present st q = true.
Proof.
  unfold Fs.is_dir, Fs.present. destruct q as [|c q]; [reflexivity|].
  destruct (_ !! _) as [[|text]|]; intros H;
    first [reflexivity | discriminate H].
Qed.

Lemma load_keeps_world (body : string) (w : world) :
  snd (_load_file_from_cache body w) = w.
Proof.
  unfold _load_file_from_cache, mbind, M_bind, path_exists, read_text, json_load.
  destruct (Fs.path_exists (files w) (cached_file body)) as [[]|e];
    try reflexivity.
  destruct (Fs.read_text (files w) (cached_file body)) as [text|e]; [|reflexivity].
  destruct (loads text); [reflexivity|].
  destruct (decodes_as_text text); reflexivity.
Qed.

Lemma load_result (body : string) (w : world) :
  fst (_load_file_from_cache body w)
  = match Fs.path_exists (files w) (cached_file body) with
    | Ok true =>
        match Fs.read_text (files w) (cached_file body) with
        | Ok text =>
            match loads text with
            | Some d => Ok (Some d)
            | None =>
                Raise (if decodes_as_text text then JSONDecodeError
                       else UnicodeDecodeError)
            end
        | Raise e => Raise e
        end
    | Ok false => Ok None
    | Raise e => Raise e
    end.
Proof.
  unfold _load_file_from_cache, mbind, M_bind, path_exists, read_text, json_load.
  destruct (Fs.path_exists (files w) (cached_file body)) as [[]|e];
    try reflexivity.
  destruct (Fs.read_text (files w) (cached_file body)) as [text|e]; [|reflexivity].
  destruct (loads text); [reflexivity|].
  destruct (decodes_as_text text); reflexivity.
Qed.

(** A store elsewhere leaves what a path shows unchanged. *)
Lemma load_after_store_elsewhere (body : string) (w : world) (q : Fs.location)
    (text : string) :
  Fs.is_dir (files w) q = false ->
  Fs.resolve (files w) (cached_file body) <> Ok q ->
  fst (_load_file_from_cache body (with_files w (Fs.store (files w) q text)))
  = fst (_load_file_from_cache body w).
Proof.
  intros Hq Hne. rewrite !load_result. cbn [files with_files].
  rewrite path_exists_store_elsewhere by assumption.
  destruct (Fs.path_exists (files w) (cached_file body)) as [[]|e] eqn:He;
    try reflexivity.
  unfold Fs.path_exists in He.
  destruct (Fs.resolve (files w) (cached_file body)) as [q'|e] eqn:E;
    [|destruct (Fs.ignored e); discriminate].
  rewrite (read_text_store_elsewhere _ q q') by congruence. reflexivity.
Qed.

End CacheOutcomes.

(** ** Plain keys *)

Section PlainKeys.

Lemma plain_key_app (a b : string) :
  plain_key (a ++ b) = plain_key a && plain_key b.
Proof.
  induction a as [|c a IH]; [reflexivity|]. rewrite append_cons.
  cbn [plain_key]. rewrite IH. now rewrite andb_assoc.
Qed.

Lemma split_slash_plain (s : string) :
  plain_key s = true -> Fs.split_slash s = [s].
Proof.
  induction s as [|c s IH]; [reflexivity|]. cbn [plain_key Fs.split_slash].
  intros H. apply andb_true_iff in H as [Hc Hs]. apply negb_true_iff in Hc.
  rewrite Hc, IH by exact Hs. reflexivity.
Qed.

Lemma file_name_length (body : string) :
  String.length (body ++ ".json") = (String.length body + 5)%nat.
Proof. now rewrite length_append. Qed.

Lemma file_name_kept (body : string) : Fs.kept (body ++ ".json") = true.
Proof.
  pose proof (file_name_length body) as Hl. unfold Fs.kept.
  destruct (String.eqb_spec (body ++ ".json") EmptyString) as [E|_];
    [rewrite E in Hl; cbn in Hl; lia|].
  destruct (String.eqb_spec (body ++ ".json") ".") as [E|_];
    [rewrite E in Hl; cbn in Hl; lia|]. reflexivity.
Qed.

Lemma file_name_not_up (body : string) : String.eqb (body ++ ".json") ".." = false.
Proof.
  pose proof (file_name_length body) as Hl.
  destruct (String.eqb_spec (body ++ ".json") "..") as [E|_]; [|reflexivity].
  rewrite E in Hl. cbn in Hl. lia.
Qed.

Lemma plain_not_anchored (body : string) :
  plain_key body = true -> String.prefix "/" (body ++ ".json") = false.
Proof.
  destruct body as [|c r]; [reflexivity|]. cbn [plain_key]. intros H.
  apply andb_true_iff in H as [Hc _]. apply negb_true_iff in Hc.
  rewrite append_cons. cbn [String.prefix].
  destruct (ascii_dec "/" c) as [<-|_]; [discriminate Hc | reflexivity].
Qed.

Lemma prefix_two_slashes (s : string) :
  String.prefix "/" s = false -> String.prefix "//" s = false.
Proof.
  destruct s as [|c r]; [reflexivity|]. cbn [String.prefix].
  destruct (ascii_dec "/" c); [|reflexivity]. now destruct r.
Qed.

Lemma path_plain (body : string) :
  plain_key body = true ->
  Fs.Path (body ++ ".json")
  = {| Fs.anchored := false;
       Fs.doubled := false;
       Fs.parts := [(body ++ ".json")%string] |}.
Proof.
  intros Hb. pose proof (plain_not_anchored body Hb) as Ha. unfold Fs.Path.
  rewrite (prefix_two_slashes _ Ha), Ha.
  rewrite split_slash_plain by (rewrite plain_key_app, Hb; reflexivity).
  cbn [List.filter]. now rewrite file_name_kept.
Qed.

(** The file of a plain key lies directly in the cache directory. *)
Lemma cached_file_plain (body : string) :
  plain_key body = true ->
  cached_file body
  = {| Fs.anchored := false;
       Fs.doubled := false;
       Fs.parts := ["DEFAULT_CACHE_DIR"; (body ++ ".json")%string] |}.
Proof.
  intros Hb. unfold cached_file, Fs.joinpath.
  rewrite path_plain by exact Hb. reflexivity.
Qed.

Lemma resolve_plain (st : Fs.fs) (body : string) (q : Fs.location) :
  plain_key body = true ->
  Fs.resolve st (cached_file body) = Ok q ->
  q = plain_place st body.
Proof.
  intros Hb. rewrite cached_file_plain by exact Hb.
  unfold Fs.resolve. destruct (Fs.refused _); [discriminate|].
  cbn [Fs.anchored Fs.parts Fs.walk].
  destruct (Fs.is_dir st (Fs.cwd st)); [|destruct (Fs.present _ _); discriminate].
  destruct (Fs.name_fits "DEFAULT_CACHE_DIR"); [|discriminate].
  change (Fs.step (Fs.cwd st) "DEFAULT_CACHE_DIR") with (cache_place st).
  destruct (Fs.is_dir st (cache_place st));
    [|destruct (Fs.present _ _); discriminate].
  destruct (Fs.name_fits _); [|discriminate].
  unfold Fs.step. rewrite file_name_not_up. unfold cache_place, plain_place.
  rewrite <- List.app_assoc. now intros [= <-].
Qed.

Lemma append_inj_r (a b c : string) : (a ++ c = b ++ c)%string -> a = b.
Proof.
  revert b. induction a as [|x a IH]; intros [|y b] H.
  - reflexivity.
  - apply (f_equal String.length) in H.
    rewrite ?append_cons, ?append_nil_l in H. cbn [String.length] in H.
    rewrite ?length_append in H. lia.
  - apply (f_equal String.length) in H.
    rewrite ?append_cons, ?append_nil_l in H. cbn [String.length] in H.
    rewrite ?length_append in H. lia.
  - rewrite !append_cons in H. injection H as -> H. f_equal. now apply IH.
Qed.

Lemma plain_place_inj (st : Fs.fs) (a b : string) :
  plain_place st a = plain_place st b -> a = b.
Proof.
  unfold plain_place. intros H. apply List.app_inv_head in H.
  injection H as H. now apply append_inj_r in H.
Qed.

End PlainKeys.

(** ** Importing the module *)

Section ImportFacts.
Import Startup.

Lemma cache_place_not_cwd (st : Fs.fs) : cache_place st <> Fs.cwd st.
Proof.
  unfold cache_place. intros H. apply (f_equal (@length string)) in H.
  rewrite length_app in H. cbn in H. lia.
Qed.

Lemma cache_place_not_root (st : Fs.fs) : cache_place st <> [].
Proof. unfold cache_place. now destruct (Fs.cwd st). Qed.

(** The import as a case analysis on the working directory and the place
    of the cache directory. *)
Lemma import_module_cases (st : Fs.fs) :
  import_module st
  = if Fs.is_dir st (Fs.cwd st) then
      if Fs.present st (cache_place st) then
        if Fs.is_dir st (cache_place st) then inl st else inr EEXIST
      else inl (make_dir st (cache_place st))
    else if Fs.present st (Fs.cwd st) then inr ENOTDIR
    else inr ENOENT.
Proof.
  unfold import_module.
  change (Fs.anchored (Fs.Path "DEFAULT_CACHE_DIR")) with false.
  change (rev (Fs.parts (Fs.Path "DEFAULT_CACHE_DIR"))) with ["DEFAULT_CACHE_DIR"].
  cbn [mkdir_parents]. unfold os_mkdir at 1. cbn [rev Fs.walk].
  change (Fs.step (Fs.cwd st) "DEFAULT_CACHE_DIR") with (cache_place st).
  unfold path_is_dir, Fs.resolve. cbn [Fs.anchored Fs.parts rev app Fs.walk].
  change (Fs.step (Fs.cwd st) "DEFAULT_CACHE_DIR") with (cache_place st).
  destruct (Fs.is_dir st (Fs.cwd st)) eqn:Hc.
  - destruct (Fs.present st (cache_place st)); reflexivity.
  - destruct (Fs.present st (Fs.cwd st)); [reflexivity|].
    unfold os_mkdir. rewrite Hc. reflexivity.
Qed.

Lemma is_dir_make_dir (st : Fs.fs) (q p : Fs.location) :
  q <> [] ->
  Fs.is_dir (make_dir st q) p = if decide (p = q) then true else Fs.is_dir st p.
Proof.
  intros Hq. unfold Fs.is_dir, make_dir; cbn [Fs.nodes].
  destruct p as [|c p].
  - case_decide; reflexivity.
  - case_decide as Hp.
    + rewrite <- Hp. now rewrite lookup_insert_eq.
    + now rewrite lookup_insert_ne by congruence.
Qed.

End ImportFacts.

(** ** Handlers with overridden methods *)

Section HandlerFacts.
Import Capture Handler.
Context (Ms : Methods).

Lemma handle_latched (self : TokenCapture) (r : request) :
  truthy (captured_token self) = true -> handle_request_of Ms self r = self.
Proof. intros H. unfold handle_request_of. now rewrite H. Qed.

Lemma observe_latched (session : list request) (self : TokenCapture) :
  truthy (captured_token self) = true -> observe_of Ms self session = self.
Proof.
  intros H. unfold observe_of. induction session as [|r session IH];
    [reflexivity|]. cbn [fold_left]. now rewrite handle_latched.
Qed.

(** One request on a handler without a token: the header is stored exactly
    when the request passes every test. *)
Lemma handle_unlatched (self : TokenCapture) (r : request) :
  truthy (captured_token self) = false ->
  handle_request_of Ms self r
  = if qualifies Ms self r
    then {| target_domain := target_domain self;
            captured_token := get_auth_header self r |}
    else self.
Proof.
  intros H. unfold handle_request_of, qualifies, _get_request_url. rewrite H.
  destruct (truthy (url r)); [|reflexivity].
  destruct (contains _ (target_domain self)); [|reflexivity].
  destruct (truthy (get_auth_header self r)); [|reflexivity].
  destruct (holds _); reflexivity.
Qed.

Lemma qualifies_truthy (self : TokenCapture) (r : request) :
  qualifies Ms self r = true -> truthy (get_auth_header self r) = true.
Proof.
  unfold qualifies. intros H.
  now apply andb_true_iff in H as [H _]; apply andb_true_iff in H as [_ H].
Qed.

Lemma observe_first (session : list request) (self : TokenCapture) :
  truthy (captured_token self) = false ->
  observe_of Ms self session
  = match List.find (qualifies Ms self) session with
    | Some r => {| target_domain := target_domain self;
                   captured_token := get_auth_header self r |}
    | None => self
    end.
Proof.
  intros H. unfold observe_of. induction session as [|r session IH];
    [reflexivity|]. cbn [fold_left List.find].
  rewrite handle_unlatched by exact H.
  destruct (qualifies Ms self r) eqn:Hq; [|exact IH].
  apply (observe_latched session). cbn [captured_token].
  now apply qualifies_truthy.
Qed.

End HandlerFacts.

(** ** Further properties: the date range generator *)

(** X1. For two texts in the forms YYYY-MM-DD and YYYY-MM-DD, a separator
    and HH, HH:MM or HH:MM:SS, which name instants without UTC offset, the
    start instant not being after the end instant, the generator yields one
    date per day from the start's date on: up to the end's date when the
    start is not later in its day than the end is in its own, and up to the
    day before otherwise. *)
Theorem dates_between_instants
    (start_date_string end_date_string : string) (range_start range_end : datetime) :
  IsoText.parse start_date_string = Some range_start ->
  IsoText.parse end_date_string = Some range_end ->
  datetime_ltb range_end range_start = false ->
  let span := days_after_start range_start range_end in
  let run :=
    drain (P := iso_text) (S (S (Z.to_nat span)))
      (_generate_daily_date_strings start_date_string end_date_string) in
  0 <= span
  /\ exists days : list date,
       fst run = map strftime_date days
       /\ snd run = ending_between range_start range_end
       /\ Z.of_nat (length days) = span + 1
       /\ forall (k : nat) (d : date),
            days !! k = Some d ->
            valid_date d = true
            /\ toordinal d = toordinal (dt_date range_start) + Z.of_nat k.
Proof.
  intros Hs He Hn span run.
  pose proof (iso_text_parses_valid _ _ Hs) as Va.
  pose proof (iso_text_parses_valid _ _ He) as Vb.
  pose proof (days_after_start_nonneg _ _ Va Vb Hn) as H0.
  split; [exact H0|].
  exists (days_from (dt_date range_start) (Z.to_nat span)).
  assert (run = (map strftime_date (days_from (dt_date range_start) (Z.to_nat span)),
                 ending_between range_start range_end)) as ->
    by (apply (drain_between (P := iso_text)); assumption).
  cbn [fst snd]. repeat split.
  - pose proof (toordinal_upper _ Vb) as Hu.
    rewrite days_from_length; [lia | exact Va |].
    subst span. unfold days_after_start in *.
    destruct (dt_time range_end <? dt_time range_start); lia.
  - now apply days_from_lookup in H.
  - now apply days_from_lookup in H.
Qed.

Lemma dates_between_instants_witness :
  fst (drain (P := iso_text) 3
         (_generate_daily_date_strings "2024-01-01T12:30" "2024-01-03"))
  = ["2024-01-01"; "2024-01-02"].
Proof.
  destruct (dates_between_instants
              "2024-01-01T12:30" "2024-01-03"
              (DateTime (Date 2024 1 1) 45000000000) (midnight (Date 2024 1 3))
              eq_refl eq_refl eq_refl)
    as (_ & days & Hrun & _).
  reflexivity.
Defined.

(** X2. For two texts in these forms, a start that is later in the same day
    than the end is an inverted range: the first resumption raises the
    error of an inverted range. *)
Theorem later_time_same_day_is_inverted
    (start_date_string end_date_string : string) (range_start range_end : datetime) :
  IsoText.parse start_date_string = Some range_start ->
  IsoText.parse end_date_string = Some range_end ->
  dt_date range_start = dt_date range_end ->
  dt_time range_end < dt_time range_start ->
  next (P := iso_text)
    (_generate_daily_date_strings start_date_string end_date_string)
  = (Raised (ValueError (inverted_message start_date_string end_date_string)),
     Closed).
Proof.
  intros Hs He Hd Ht. unfold _generate_daily_date_strings. cbn [next fromisoformat iso_text].
  rewrite Hs, He.
  assert (datetime_ltb range_end range_start = true) as ->; [|reflexivity].
  unfold datetime_ltb. rewrite Hd.
  assert (date_eqb (dt_date range_end) (dt_date range_end) = true) as ->
    by now apply date_eqb_eq.
  apply orb_true_iff. right. cbn [andb]. lia.
Qed.

Lemma later_time_same_day_is_inverted_witness :
  next (P := iso_text)
    (_generate_daily_date_strings "2024-01-01T12:30" "2024-01-01T08:00")
  = (Raised (ValueError
               "Start date 2024-01-01T12:30 is after end date 2024-01-01T08:00"),
     Closed).
Proof.
  apply (later_time_same_day_is_inverted
           "2024-01-01T12:30" "2024-01-01T08:00"
           (DateTime (Date 2024 1 1) 45000000000)
           (DateTime (Date 2024 1 1) 28800000000));
    first [reflexivity | cbn; lia].
Defined.

(** X3. Whatever the end text and however long the consumer iterates, when
    the start lies in the year 1000 or later every text the generator yields
    is a valid date in the form YYYY-MM-DD: a time of day in the input never
    shows in the output. *)
Theorem yielded_texts_are_dates {P : IsoParser}
    (start_date_string end_date_string : string) (fuel : nat) :
  parses_valid P ->
  (forall range_start : datetime,
      fromisoformat start_date_string = Some range_start ->
      1000 <= year (dt_date range_start)) ->
  Forall (fun s => well_formed_calendar_date s = true)
    (fst (drain fuel (_generate_daily_date_strings start_date_string end_date_string))).
Proof. intros HP Hy. now apply drain_well_formed. Qed.

Lemma yielded_texts_are_dates_witness :
  Forall (fun s => well_formed_calendar_date s = true)
    (fst (drain (P := iso_text) 5
            (_generate_daily_date_strings "2024-02-28T23:59:59" "2024-03-01T00:00"))).
Proof.
  apply (yielded_texts_are_dates (P := iso_text)).
  - exact iso_text_parses_valid.
  - intros range_start H. vm_compute in H. injection H as <-. cbn. lia.
Defined.

(** X20. Before the year 1000 the texts are not in the form YYYY-MM-DD that
    the docstring names and the generator reads: the text yielded for a
    valid date of these years is shorter, and read back as a start or an
    end it is no well-formed date. *)
Theorem early_year_text_is_short (d : date) :
  valid_date d = true -> year d < 1000 ->
  (String.length (strftime_date d) < 10)%nat
  /\ well_formed_calendar_date (strftime_date d) = false
  /\ IsoText.parse (strftime_date d) = None.
Proof.
  intros Hv Hy. pose proof (valid_date_fields d Hv) as (Hy1 & _ & _).
  assert (String.length (strftime_date d) < 10)%nat as Hl.
  { unfold strftime_date, year_text, pad2.
    destruct (Z.ltb_spec (year d) 10);
      [|destruct (Z.ltb_spec (year d) 100);
        [|destruct (Z.ltb_spec (year d) 1000); [|lia]]];
      rewrite ?append_cons, ?append_nil_l; cbn [String.length]; lia. }
  split; [exact Hl|]. unfold well_formed_calendar_date, IsoText.parse.
  now rewrite parse_date_short by exact Hl.
Qed.

Lemma early_year_text_is_short_witness :
  strftime_date (Date 999 12 31) = "999-12-31"
  /\ IsoText.parse "999-12-31" = None.
Proof.
  split; [reflexivity|].
  exact (proj2 (proj2 (early_year_text_is_short (Date 999 12 31) eq_refl eq_refl))).
Defined.

(** ** Further properties: the response cache *)

(** X5. When the path of the key is a directory, the load raises
    [IsADirectoryError]: it neither reports a miss nor decodes anything. *)
Theorem load_of_directory_raises {Doc : Type} (C : JsonCodec Doc)
    (body : string) (w : world) (q : Fs.location) :
  Fs.resolve (files w) (cached_file body) = Ok q ->
  Fs.is_dir (files w) q = true ->
  _load_file_from_cache body w = (Raise IsADirectoryError, w).
Proof.
  intros Hr Hd. rewrite (surjective_pairing (_load_file_from_cache body w)).
  rewrite load_keeps_world, load_result. unfold Fs.path_exists, Fs.read_text.
  rewrite Hr, Hd, (is_dir_present _ _ Hd). reflexivity.
Qed.

Lemma load_of_directory_raises_witness :
  _load_file_from_cache (C := json_text) "fixtures" directory_world
  = (Raise IsADirectoryError, directory_world).
Proof.
  apply (load_of_directory_raises json_text "fixtures" directory_world
           ["DEFAULT_CACHE_DIR"; "fixtures.json"]); reflexivity.
Defined.

(** X6. A save that completes changes the file of the key, which then holds
    the encoded document, and nothing else: no other file, not the working
    directory, no request. *)
Theorem completed_save_changes_one_file {Doc : Type} (C : JsonCodec Doc)
    (body : string) (data : Doc) (w w' : world) :
  _save_to_cache body data w = (Ok tt, w') ->
  exists q : Fs.location,
    Fs.resolve (files w) (cached_file body) = Ok q
    /\ Fs.nodes (files w') !! q = Some (Fs.File (dumps data))
    /\ (forall p : Fs.location,
          p <> q -> Fs.nodes (files w') !! p = Fs.nodes (files w) !! p)
    /\ Fs.cwd (files w') = Fs.cwd (files w)
    /\ sent w' = sent w /\ transport w' = transport w.
Proof.
  intros Hs. unfold _save_to_cache in Hs.
  apply save_text_done in Hs as (q & Hr & Hq & ->).
  exists q. cbn [files with_files sent transport Fs.store Fs.nodes Fs.cwd].
  repeat split; [exact Hr | apply lookup_insert_eq |].
  intros p Hp. now rewrite lookup_insert_ne.
Qed.

Lemma completed_save_changes_one_file_witness :
  exists q : Fs.location,
    Fs.resolve fresh_files (cached_file "races") = Ok q
    /\ Fs.nodes
         (files (snd (_save_to_cache (C := json_text) "races" refreshed_document
                        cached_world))) !! q
       = Some (Fs.File (Json.encode refreshed_document))
    /\ Fs.nodes
         (files (snd (_save_to_cache (C := json_text) "races" refreshed_document
                        cached_world))) !! ["DEFAULT_CACHE_DIR"; "fixtures.json"]
       = Some (Fs.File (Json.encode fixtures_document)).
Proof.
  destruct (completed_save_changes_one_file json_text "races" refreshed_document
              cached_world
              (snd (_save_to_cache (C := json_text) "races" refreshed_document
                      cached_world)) eq_refl)
    as (q & Hr & Hq & Hother & _).
  exists q. split; [|split].
  - exact Hr.
  - exact Hq.
  - rewrite Hother; [reflexivity|]. intros <-. vm_compute in Hr. discriminate Hr.
Defined.



(** X9. When a save under a plain key completes, the file it wrote is the
    one of the name of the key and [.json] in the directory
    [DEFAULT_CACHE_DIR] of the working directory. *)
Theorem plain_key_save_place {Doc : Type} (C : JsonCodec Doc)
    (body : string) (data : Doc) (w w' : world) :
  plain_key body = true ->
  _save_to_cache body data w = (Ok tt, w') ->
  w' = with_files w
         (Fs.store (files w) (plain_place (files w) body) (dumps data)).
Proof.
  intros Hb Hs. unfold _save_to_cache in Hs.
  apply save_text_done in Hs as (q & Hr & Hq & ->).
  now rewrite (resolve_plain _ _ _ Hb Hr).
Qed.

Lemma plain_key_save_place_witness :
  snd (_save_to_cache (C := json_text) "races" refreshed_document cached_world)
  = with_files cached_world
      (Fs.store (files cached_world) ["DEFAULT_CACHE_DIR"; "races.json"]
         (Json.encode refreshed_document)).
Proof.
  apply (plain_key_save_place json_text "races" refreshed_document cached_world);
    reflexivity.
Defined.

(** ** Further properties: keys that are paths *)

Section KeyPaths.

Lemma dot_slash_path (s : string) :
  String.prefix "/" s = false ->
  Fs.Path (String "." (String "/" s)) = Fs.Path s.
Proof.
  intros Hs. unfold Fs.Path. cbn [String.prefix Fs.split_slash].
  change (Ascii.eqb "." "/") with false. change (Ascii.eqb "/" "/") with true.
  cbv iota. cbn [List.filter]. change (Fs.kept ".") with false. cbv iota.
  rewrite (prefix_two_slashes _ Hs), Hs.
  destruct (ascii_dec "/" "."); [discriminate | reflexivity].
Qed.

Lemma prefix_slash_app (a b : string) :
  String.prefix "/" a = false -> String.prefix "/" b = false ->
  String.prefix "/" (a ++ b) = false.
Proof.
  intros Ha Hb. destruct a as [|c a]; [exact Hb|].
  rewrite append_cons. cbn [String.prefix] in *.
  destruct (ascii_dec "/" c); [destruct a; discriminate | reflexivity].
Qed.

Lemma cached_file_dot_slash (body : string) :
  String.prefix "/" body = false ->
  cached_file (String "." (String "/" body)) = cached_file body.
Proof.
  intros Hb. unfold cached_file. rewrite !append_cons.
  unfold Fs.joinpath. rewrite dot_slash_path; [reflexivity|].
  now apply prefix_slash_app.
Qed.

Lemma cached_file_rooted (body : string) :
  plain_key body = true ->
  cached_file (String "/" body)
  = {| Fs.anchored := true;
       Fs.doubled := false;
       Fs.parts := [(body ++ ".json")%string] |}.
Proof.
  intros Hb. pose proof (plain_not_anchored body Hb) as Ha.
  unfold cached_file, Fs.joinpath. rewrite append_cons.
  unfold Fs.Path. cbn [String.prefix Fs.split_slash Fs.anchored].
  change (Ascii.eqb "/" "/") with true. cbv iota.
  rewrite split_slash_plain by (rewrite plain_key_app, Hb; reflexivity).
  cbn [List.filter]. change (Fs.kept EmptyString) with false. cbv iota.
  rewrite file_name_kept.
  destruct (ascii_dec "/" "/") as [_|N]; [|now contradiction N].
  assert (String.prefix "/" (body ++ ".json") = false) as -> by exact Ha.
  destruct (body ++ ".json")%string; reflexivity.
Qed.

Lemma cached_file_parent (body : string) :
  plain_key body = true ->
  cached_file (String "." (String "." (String "/" body)))
  = {| Fs.anchored := false;
       Fs.doubled := false;
       Fs.parts := ["DEFAULT_CACHE_DIR"; ".."; (body ++ ".json")%string] |}.
Proof.
  intros Hb. unfold cached_file, Fs.joinpath. rewrite !append_cons.
  unfold Fs.Path. cbn [String.prefix Fs.split_slash Fs.anchored Fs.parts].
  change (Ascii.eqb "." "/") with false. change (Ascii.eqb "/" "/") with true.
  cbv iota. rewrite split_slash_plain by (rewrite plain_key_app, Hb; reflexivity).
  cbn [List.filter]. change (Fs.kept "..") with true. cbv iota.
  rewrite file_name_kept.
  destruct (ascii_dec "/" ".") as [N|_]; [discriminate N | reflexivity].
Qed.

(** A key with a NUL character gives a path that Python refuses. *)
Lemma has_nul_app (a b : string) :
  Fs.has_nul (a ++ b) = Fs.has_nul a || Fs.has_nul b.
Proof.
  induction a as [|c a IH]; [reflexivity|]. rewrite append_cons.
  cbn [Fs.has_nul]. rewrite IH. now rewrite orb_assoc.
Qed.

Lemma refused_nul (body : string) :
  plain_key body = true -> Fs.has_nul body = true ->
  Fs.refused (cached_file body) = Some (ValueError "embedded null byte").
Proof.
  intros Hb Hn. rewrite cached_file_plain by exact Hb.
  unfold Fs.refused. cbn [Fs.parts existsb].
  rewrite has_nul_app, Hn. reflexivity.
Qed.

End KeyPaths.



(** X11. A key that starts with a slash leaves the cache directory: when
    the save completes, the file it wrote is the one of that name at the
    root of the file system. *)
Theorem rooted_key_leaves_cache_directory {Doc : Type} (C : JsonCodec Doc)
    (body : string) (data : Doc) (w w' : world) :
  plain_key body = true ->
  _save_to_cache (String "/" body) data w = (Ok tt, w') ->
  w' = with_files w (Fs.store (files w) [(body ++ ".json")%string] (dumps data)).
Proof.
  intros Hb Hs. unfold _save_to_cache in Hs.
  apply save_text_done in Hs as (q & Hr & Hq & ->).
  rewrite cached_file_rooted in Hr by exact Hb. unfold Fs.resolve in Hr.
  destruct (Fs.refused _); [discriminate|].
  cbn [Fs.anchored Fs.parts Fs.walk Fs.is_dir] in Hr.
  destruct (Fs.name_fits _); [|discriminate].
  unfold Fs.step in Hr. rewrite file_name_not_up in Hr. cbn [app] in Hr.
  now injection Hr as <-.
Qed.

Lemma rooted_key_leaves_cache_directory_witness :
  snd (_save_to_cache (C := json_text) "/fixtures" fixtures_document fresh_world)
  = with_files fresh_world
      (Fs.store fresh_files ["fixtures.json"] (Json.encode fixtures_document)).
Proof.
  apply (rooted_key_leaves_cache_directory json_text "fixtures" fixtures_document
           fresh_world); reflexivity.
Defined.

(** X12. A key that starts with [../] leaves the cache directory too: when
    the save completes, the file it wrote is the one of that name in the
    working directory. *)
Theorem parent_key_leaves_cache_directory {Doc : Type} (C : JsonCodec Doc)
    (body : string) (data : Doc) (w w' : world) :
  plain_key body = true ->
  _save_to_cache (String "." (String "." (String "/" body))) data w = (Ok tt, w') ->
  w' = with_files w
         (Fs.store (files w) (Fs.cwd (files w) ++ [(body ++ ".json")%string])%list
            (dumps data)).
Proof.
  intros Hb Hs. unfold _save_to_cache in Hs.
  apply save_text_done in Hs as (q & Hr & Hq & ->).
  rewrite cached_file_parent in Hr by exact Hb. unfold Fs.resolve in Hr.
  destruct (Fs.refused _); [discriminate|].
  cbn [Fs.anchored Fs.parts Fs.walk] in Hr.
  destruct (Fs.is_dir (files w) (Fs.cwd (files w))) eqn:Hcwd;
    [|destruct (Fs.present _ _); discriminate].
  destruct (Fs.name_fits "DEFAULT_CACHE_DIR"); [|discriminate].
  change (Fs.step (Fs.cwd (files w)) "DEFAULT_CACHE_DIR")
    with (cache_place (files w)) in Hr.
  destruct (Fs.is_dir (files w) (cache_place (files w)));
    [|destruct (Fs.present _ _); discriminate].
  destruct (Fs.name_fits ".."); [|discriminate].
  change (Fs.step (cache_place (files w)) "..")
    with (removelast (cache_place (files w))) in Hr.
  unfold cache_place in Hr. rewrite List.removelast_last, Hcwd in Hr.
  destruct (Fs.name_fits _); [|discriminate].
  unfold Fs.step in Hr. rewrite file_name_not_up in Hr.
  now injection Hr as <-.
Qed.

Lemma parent_key_leaves_cache_directory_witness :
  snd (_save_to_cache (C := json_text) "../fixtures" fixtures_document fresh_world)
  = with_files fresh_world
      (Fs.store fresh_files ["fixtures.json"] (Json.encode fixtures_document)).
Proof.
  apply (parent_key_leaves_cache_directory json_text "fixtures" fixtures_document
           fresh_world); reflexivity.
Defined.

(** X21. Under a plain key that holds a NUL character the save raises
    [ValueError] and writes nothing, and the load returns the absent
    result: the path is refused before the file system is asked. *)
Theorem nul_key_is_refused {Doc : Type} (C : JsonCodec Doc)
    (body : string) (data : Doc) (w : world) :
  plain_key body = true ->
  Fs.has_nul body = true ->
  _save_to_cache body data w = (Raise (ValueError "embedded null byte"), w)
  /\ _load_file_from_cache body w = (Ok None, w).
Proof.
  intros Hb Hn. pose proof (refused_nul body Hb Hn) as Hr. split.
  - unfold _save_to_cache. rewrite save_text_outcome. unfold Fs.resolve.
    now rewrite Hr.
  - apply load_miss. unfold Fs.path_exists, Fs.resolve. now rewrite Hr.
Qed.

Lemma nul_key_is_refused_witness :
  _save_to_cache (C := json_text) (String "a" (String "000" "b")) fixtures_document
    fresh_world
  = (Raise (ValueError "embedded null byte"), fresh_world)
  /\ _load_file_from_cache (C := json_text) (String "a" (String "000" "b"))
       fresh_world
     = (Ok None, fresh_world).
Proof.
  apply (nul_key_is_refused json_text (String "a" (String "000" "b"))
           fixtures_document fresh_world); reflexivity.
Defined.

(** X22. Under a plain key without NUL whose file name is longer than the
    file system allows, the working directory and the cache directory being
    directories, neither operation reaches the file: the save raises
    [OSError] with [ENAMETOOLONG] and writes nothing, and the load raises
    it too instead of reporting a miss. *)
Theorem long_key_raises {Doc : Type} (C : JsonCodec Doc)
    (body : string) (data : Doc) (w : world) :
  plain_key body = true ->
  Fs.has_nul body = false ->
  Fs.name_fits (body ++ ".json") = false ->
  Fs.is_dir (files w) (Fs.cwd (files w)) = true ->
  Fs.is_dir (files w) (cache_place (files w)) = true ->
  _save_to_cache body data w = (Raise (OSError ENAMETOOLONG), w)
  /\ _load_file_from_cache body w = (Raise (OSError ENAMETOOLONG), w).
Proof.
  intros Hb Hn Hl Hcwd Hdir.
  assert (Fs.resolve (files w) (cached_file body) = Raise (OSError ENAMETOOLONG))
    as Hr.
  { rewrite cached_file_plain by exact Hb. unfold Fs.resolve, Fs.refused.
    cbn [Fs.parts existsb Fs.anchored]. rewrite has_nul_app, Hn.
    change (Fs.has_nul "DEFAULT_CACHE_DIR") with false.
    change (Fs.has_nul ".json") with false. cbn [orb].
    destruct (Fs.PATH_MAX <=? _); [reflexivity|]. cbn [Fs.walk]. rewrite Hcwd.
    change (Fs.name_fits "DEFAULT_CACHE_DIR") with true. cbv iota.
    change (Fs.step (Fs.cwd (files w)) "DEFAULT_CACHE_DIR")
      with (cache_place (files w)).
    now rewrite Hdir, Hl. }
  split.
  - unfold _save_to_cache. now rewrite save_text_outcome, Hr.
  - rewrite (surjective_pairing (_load_file_from_cache body w)).
    rewrite load_keeps_world, load_result. unfold Fs.path_exists.
    now rewrite Hr.
Qed.

Lemma long_key_raises_witness :
  _save_to_cache (C := json_text) long_key fixtures_document fresh_world
  = (Raise (OSError ENAMETOOLONG), fresh_world)
  /\ _load_file_from_cache (C := json_text) long_key fresh_world
     = (Raise (OSError ENAMETOOLONG), fresh_world).
Proof.
  apply (long_key_raises json_text long_key fixtures_document fresh_world);
    vm_compute; reflexivity.
Defined.

(** ** Further properties: importing the module *)

(** X13. When the import succeeds, the cache directory is a directory, the
    working directory still is one, every other entry of the file system is
    as before, and importing again changes nothing. *)
Theorem import_makes_cache_directory (st st' : Fs.fs) :
  Startup.import_module st = inl st' ->
  Fs.is_dir st' (cache_place st') = true
  /\ Fs.is_dir st' (Fs.cwd st') = true
  /\ Fs.cwd st' = Fs.cwd st
  /\ (forall p : Fs.location,
        p <> cache_place st -> Fs.nodes st' !! p = Fs.nodes st !! p)
  /\ Startup.import_module st' = inl st'.
Proof.
  rewrite import_module_cases. intros H.
  destruct (Fs.is_dir st (Fs.cwd st)) eqn:Hc;
    [|destruct (Fs.present st (Fs.cwd st)); discriminate].
  destruct (Fs.present st (cache_place st)) eqn:Hp.
  - destruct (Fs.is_dir st (cache_place st)) eqn:Hd; [|discriminate].
    injection H as <-. repeat split; auto.
    rewrite import_module_cases, Hc, Hp, Hd. reflexivity.
  - injection H as <-.
    pose proof (cache_place_not_root st) as Hn.
    pose proof (cache_place_not_cwd st) as Hw.
    assert (cache_place (Startup.make_dir st (cache_place st)) = cache_place st)
      as Hsame by reflexivity.
    assert (Fs.is_dir (Startup.make_dir st (cache_place st)) (cache_place st) = true)
      as Hd1 by (rewrite is_dir_make_dir by exact Hn; now case_decide).
    assert (Fs.is_dir (Startup.make_dir st (cache_place st)) (Fs.cwd st) = true)
      as Hc1 by (rewrite is_dir_make_dir by exact Hn; case_decide; congruence).
    rewrite Hsame. repeat split; auto.
    + intros p Hpne. unfold Startup.make_dir; cbn [Fs.nodes].
      now rewrite lookup_insert_ne.
    + rewrite import_module_cases. cbn [Fs.cwd Startup.make_dir].
      rewrite Hsame, Hc1, Hd1, (is_dir_present _ _ Hd1). reflexivity.
Qed.

Lemma import_makes_cache_directory_witness :
  Startup.import_module empty_files = inl fresh_files
  /\ Startup.import_module fresh_files = inl fresh_files.
Proof.
  assert (Startup.import_module empty_files = inl fresh_files) as H by reflexivity.
  split; [exact H|].
  exact (proj2 (proj2 (proj2 (proj2
           (import_makes_cache_directory empty_files fresh_files H))))).
Defined.

(** X14. When a regular file stands at the place of the cache directory, the
    import raises [FileExistsError]; nothing is written. *)
Theorem import_blocked_by_file (st : Fs.fs) (text : string) :
  Fs.is_dir st (Fs.cwd st) = true ->
  Fs.nodes st !! cache_place st = Some (Fs.File text) ->
  Startup.import_module st = inr Startup.EEXIST.
Proof.
  intros Hc Hf. rewrite import_module_cases, Hc.
  pose proof (cache_place_not_root st) as Hn.
  unfold Fs.present, Fs.is_dir. destruct (cache_place st); [congruence|].
  rewrite Hf. reflexivity.
Qed.

Lemma import_blocked_by_file_witness :
  Startup.import_module blocked_files = inr Startup.EEXIST.
Proof.
  apply (import_blocked_by_file blocked_files "notes"); reflexivity.
Defined.

(** ** Further properties: token capture *)

(** X16. Whatever requests the browser session makes, the handler of the
    module ends without a token: no request changes the handler, whatever
    it held before. *)
Theorem token_is_never_captured (session : list Capture.request) (domain : string) :
  Capture.get_token (Capture.observe (Capture.init domain) session) = None
  /\ forall self : Capture.TokenCapture, Capture.observe self session = self.
Proof.
  split.
  - now rewrite observe_stores_nothing.
  - intros self. apply observe_stores_nothing.
Qed.

(** X17. In a subclass that overrides the two helper methods, the handler
    ends a session with the header of the first request that passes every
    test of [handle_request], and with no token when there is none; the
    token it holds is never the empty text, and its domain is the one it
    was created with.  With the methods of the class itself this is
    [handle_request]. *)
Theorem overriding_handler_keeps_first_token (Ms : Handler.Methods)
    (session : list Capture.request) (domain : string) :
  let self := Capture.init domain in
  let final := Handler.observe_of Ms self session in
  Capture.get_token final
  = match List.find (Handler.qualifies Ms self) session with
    | Some r => Handler.get_auth_header self r
    | None => None
    end
  /\ (Capture.get_token final = None
      \/ Capture.truthy (Capture.get_token final) = true)
  /\ Capture.target_domain final = domain
  /\ Handler.handle_request_of Handler.base = Capture.handle_request.
Proof.
  intros self final. subst final.
  rewrite (observe_first Ms session self) by reflexivity.
  destruct (List.find (Handler.qualifies Ms self) session) as [r|] eqn:Hf.
  - apply List.find_some in Hf as [_ Hq].
    apply qualifies_truthy in Hq. repeat split; auto.
  - repeat split; auto.
Qed.

(** X18. Once the handler holds a token, no later request changes it,
    whatever the helper methods answer. *)
Theorem captured_token_is_kept (Ms : Handler.Methods)
    (self : Capture.TokenCapture) (session : list Capture.request) :
  Capture.truthy (Capture.captured_token self) = true ->
  Handler.observe_of Ms self session = self.
Proof. apply observe_latched. Qed.

Lemma captured_token_is_kept_witness :
  Capture.get_token
    (Handler.observe_of bearer_methods (Capture.init api_domain) browser_session)
  = Some "Bearer first-token".
Proof.
  change browser_session
    with (firstn 3 browser_session ++ skipn 3 browser_session)%list.
  unfold Handler.observe_of. rewrite fold_left_app.
  change (fold_left (Handler.handle_request_of bearer_methods)
            (skipn 3 browser_session) ?s)
    with (Handler.observe_of bearer_methods s (skipn 3 browser_session)).
  rewrite (captured_token_is_kept bearer_methods); reflexivity.
Defined.

(** X19. The domain test looks for the domain anywhere in the URL: a request
    whose URL holds the domain after any text, for instance in the path of
    another host, passes it, and its header is stored when the header tests
    accept it. *)
Theorem domain_test_accepts_any_position (Ms : Handler.Methods)
    (self : Capture.TokenCapture) (r : Capture.request) (before after : string) :
  Capture.truthy (Capture.captured_token self) = false ->
  Capture.target_domain self <> EmptyString ->
  Capture.url r = Some (before ++ Capture.target_domain self ++ after)%string ->
  Capture.truthy (Handler.get_auth_header self r) = true ->
  Capture.holds
    (Handler.is_valid_bearer_token self
       (default EmptyString (Handler.get_auth_header self r))) = true ->
  Capture.captured_token (Handler.handle_request_of Ms self r)
  = Handler.get_auth_header self r.
Proof.
  intros Hn Hd Hu Ht Hv. rewrite handle_unlatched by exact Hn.
  unfold Handler.qualifies. rewrite Hu, Ht, Hv.
  change (default EmptyString (Some ?x)) with x.
  assert (forall a b, String.prefix a (a ++ b) = true) as Hp.
  { induction a as [|c a IH]; intros b; [now destruct b|].
    rewrite append_cons. cbn [String.prefix].
    destruct (ascii_dec c c) as [_|N]; [apply IH | now contradiction N]. }
  assert (forall pre d post, Capture.contains (pre ++ d ++ post) d = true) as Hc.
  { induction pre as [|c pre IH]; intros d post.
    - rewrite append_nil_l. destruct (d ++ post)%string eqn:E;
        cbn [Capture.contains]; rewrite <- E, Hp; reflexivity.
    - rewrite append_cons. cbn [Capture.contains]. rewrite IH.
      apply orb_true_r. }
  rewrite Hc.
  assert (Capture.truthy (Some (before ++ Capture.target_domain self ++ after)%string)
          = true) as ->; [|reflexivity].
  destruct before; [|reflexivity]. rewrite append_nil_l.
  destruct (Capture.target_domain self); [congruence | reflexivity].
Qed.

Lemma domain_test_accepts_any_position_witness :
  Capture.captured_token
    (Handler.handle_request_of bearer_methods (Capture.init api_domain)
       {| Capture.url :=
            Some "https://elsewhere.example/?next=api09.horseracing.software";
          Capture.headers := {[ "authorization" := "Bearer other" ]} |})
  = Some "Bearer other".
Proof.
  refine (eq_trans
            (domain_test_accepts_any_position bearer_methods (Capture.init api_domain)
               {| Capture.url :=
                    Some "https://elsewhere.example/?next=api09.horseracing.software";
                  Capture.headers := {[ "authorization" := "Bearer other" ]} |}
               "https://elsewhere.example/?next=" EmptyString _ _ _ _ _) _);
    first [reflexivity | discriminate].
Defined.
